(** * WLA historical performance report: loader, aggregator and PDF emitter

    Shallow embedding of [generate_report.py]: [get_data], [analyze_data],
    the class [PDF] and [create_report].  The script is glue around pandas,
    numpy and fpdf; their calls are modelled by their documented behaviour:

    - a [float64] is an IEEE-754 binary64 value: [spec_float] at precision
      53 and maximal exponent 1024, with the arithmetic and the comparisons
      of [SpecFloat] (NaN, the infinities and the signed zeros included);
    - a [datetime64[ns]] is a number of nanoseconds since 1970-01-01;
    - a Python [str] is a [string] whose characters are the code points
      below 256;
    - a [DataFrame] is the list of its rows, each carrying its index label,
      plus the column the aggregator adds;
    - an exception is a value of [exn], returned on the left of a sum;
    - the FPDF document is the list of the calls it received, threaded
      through a state monad;
    - [sort_values] is always called by the script with the default
      [kind='quicksort'].  pandas documents ['mergesort'] and ['stable'] as
      the only stable kinds, so the routine behind the default is an
      argument [quicksort] of the functions that sort, and the properties
      below are proved for every routine that returns a sorting
      permutation ([sorting_routine]).  Two such routines are defined for
      the examples: [argsort_stable] and [argsort_reversing];
    - the text parsers behind [pd.to_datetime] and [pd.to_numeric] are
      arguments as well; [parse_iso_date] and [parse_digits] serve in the
      examples. *)

From Stdlib Require Import ZArith List Bool Ascii String Lia Permutation Sorted.
From Stdlib Require Import DecimalString.
From Stdlib Require Import Floats.SpecFloat.
From ExtLib Require Import Structures.Monad Structures.MonadState.
From ExtLib Require Import Data.Monads.StateMonad.
Import ListNotations.

Local Open Scope string_scope.
Local Open Scope list_scope.
Local Open Scope Z_scope.

(** ** float64 *)

Module F64.

Definition float := spec_float.

Definition prec : Z := 53.
Definition emax : Z := 1024.

Definition add : float -> float -> float := SFadd prec emax.
Definition sub : float -> float -> float := SFsub prec emax.
Definition mul : float -> float -> float := SFmul prec emax.
Definition div : float -> float -> float := SFdiv prec emax.
Definition sqrt : float -> float := SFsqrt prec emax.
Definition neg : float -> float := SFopp.

Definition ltb : float -> float -> bool := SFltb.
Definition leb : float -> float -> bool := SFleb.
Definition eqb : float -> float -> bool := SFeqb.

Definition nan : float := S754_nan.
Definition zero : float := S754_zero false.
Definition neg_infinity : float := S754_infinity true.

Definition is_nan (x : float) : bool :=
  match x with S754_nan => true | _ => false end.

Definition is_finite (x : float) : bool :=
  match x with S754_zero _ | S754_finite _ _ _ => true | _ => false end.

(** Conversion of a Python [int] (rounded to nearest even). *)
Definition of_Z (z : Z) : float := binary_normalize prec emax z 0 false.

Definition of_nat (n : nat) : float := of_Z (Z.of_nat n).

(** [bool(x)] of a numpy float: false exactly for the two zeros. *)
Definition truthy (x : float) : bool := negb (eqb x zero).

(** numpy's order on float keys when sorting: NaN compares above
    everything ([a < b || (b != b && a == a)]). *)
Definition sort_leb (x y : float) : bool := is_nan y || leb x y.

End F64.

Abbreviation float := F64.float.

(** A Python number as the script produces them: the literal [0] of the
    fall-back branches is an [int], every computed metric a float. *)
Inductive pynum : Type :=
| PyInt (z : Z)
| PyFloat (x : float).

(** ** str *)

Module Str.

Definition code (c : ascii) : N := N_of_ascii c.

Definition in_range (lo hi : N) (c : ascii) : bool :=
  (N.leb lo (code c) && N.leb (code c) hi)%bool.

(** [str.isspace] on one character. *)
Definition is_space (c : ascii) : bool :=
  (in_range 9 13 c || in_range 28 32 c
   || N.eqb (code c) 133 || N.eqb (code c) 160)%bool.

Definition is_upper (c : ascii) : bool :=
  (in_range 65 90 c
   || (in_range 192 222 c && negb (N.eqb (code c) 215)))%bool.

(** Lowercase letters whose uppercase is again below 256. *)
Definition is_lower (c : ascii) : bool :=
  (in_range 97 122 c
   || (in_range 224 254 c && negb (N.eqb (code c) 247)))%bool.

Definition lower_char (c : ascii) : ascii :=
  if is_upper c then ascii_of_N (code c + 32) else c.

Definition upper_char (c : ascii) : ascii :=
  if is_lower c then ascii_of_N (code c - 32) else c.

(** Cased characters: the letters above and the five lowercase characters
    (feminine and masculine ordinal, micro sign, sharp s, y with diaeresis)
    that have no uppercase below 256; [upper_char] leaves those five as
    they are. *)
Definition is_cased (c : ascii) : bool :=
  (is_upper c || is_lower c
   || N.eqb (code c) 170 || N.eqb (code c) 181 || N.eqb (code c) 186
   || N.eqb (code c) 223 || N.eqb (code c) 255)%bool.

Fixpoint map_chars (f : ascii -> ascii) (s : string) : string :=
  match s with
  | EmptyString => EmptyString
  | String c s' => String (f c) (map_chars f s')
  end.

(** [str.lower] *)
Definition lower (s : string) : string := map_chars lower_char s.

Fixpoint lstrip (s : string) : string :=
  match s with
  | EmptyString => EmptyString
  | String c s' => if is_space c then lstrip s' else s
  end.

Fixpoint rstrip (s : string) : string :=
  match s with
  | EmptyString => EmptyString
  | String c s' =>
      match rstrip s' with
      | EmptyString => if is_space c then EmptyString else String c EmptyString
      | kept => String c kept
      end
  end.

(** [str.strip] with no argument: whitespace is removed at both ends. *)
Definition strip (s : string) : string := rstrip (lstrip s).

Fixpoint title_from (previous_is_cased : bool) (s : string) : string :=
  match s with
  | EmptyString => EmptyString
  | String c s' =>
      String (if previous_is_cased then lower_char c else upper_char c)
             (title_from (is_cased c) s')
  end.

(** [str.title] *)
Definition title (s : string) : string := title_from false s.

(** [str.capitalize] *)
Definition capitalize (s : string) : string :=
  match s with
  | EmptyString => EmptyString
  | String c s' => String (upper_char c) (lower s')
  end.

Definition of_Z (z : Z) : string := NilZero.string_of_int (Z.to_int z).

End Str.

(** ** Timestamp *)

Module Timestamp.

(** Nanoseconds since the epoch, as in a [datetime64[ns]] column. *)
Definition t := Z.

Definition ns_per_day : Z := 86400 * 1000000000.

Definition days_from_civil (y m d : Z) : Z :=
  let y' := if m <=? 2 then y - 1 else y in
  let era := y' / 400 in
  let yoe := y' - era * 400 in
  let mp := if 2 <? m then m - 3 else m + 9 in
  let doy := (153 * mp + 2) / 5 + d - 1 in
  let doe := yoe * 365 + yoe / 4 - yoe / 100 + doy in
  era * 146097 + doe - 719468.

(** (year, month, day) of a day number. *)
Definition civil_from_days (z : Z) : Z * Z * Z :=
  let z := z + 719468 in
  let era := z / 146097 in
  let doe := z - era * 146097 in
  let yoe := (doe - doe / 1460 + doe / 36524 - doe / 146096) / 365 in
  let doy := doe - (365 * yoe + yoe / 4 - yoe / 100) in
  let mp := (5 * doy + 2) / 153 in
  let d := doy - (153 * mp + 2) / 5 + 1 in
  let m := if mp <? 10 then mp + 3 else mp - 9 in
  ((if m <=? 2 then yoe + era * 400 + 1 else yoe + era * 400), m, d).

Definition of_date (y m d : Z) : t := days_from_civil y m d * ns_per_day.

(** [.dt.year] *)
Definition year (ts : t) : Z := fst (fst (civil_from_days (ts / ns_per_day))).

Definition month_of (ts : t) : Z := snd (fst (civil_from_days (ts / ns_per_day))).

Definition month_abbr (m : Z) : string :=
  nth (Z.to_nat (m - 1))
      ["Jan"; "Feb"; "Mar"; "Apr"; "May"; "Jun";
       "Jul"; "Aug"; "Sep"; "Oct"; "Nov"; "Dec"] "".

(** [strftime('%b %Y')] *)
Definition strftime_b_Y (ts : t) : string :=
  (month_abbr (month_of ts) ++ " " ++ Str.of_Z (year ts))%string.

End Timestamp.

(** ** Sorting and positional selection *)

(** [l.take(indexer)]: the elements of [l] at the given positions. *)
Definition take {A : Type} (indexer : list nat) (l : list A) : list A :=
  flat_map (fun i => match nth_error l i with Some x => [x] | None => [] end)
           indexer.

(** [numpy.argsort]: from the keys and their order to the positions in
    sorted order. *)
Definition argsort_t : Type :=
  forall K : Type, (K -> K -> bool) -> list K -> list nat.

Definition total {K : Type} (leb : K -> K -> bool) : Prop :=
  forall a b, leb a b = true \/ leb b a = true.

Definition transitive {K : Type} (leb : K -> K -> bool) : Prop :=
  forall a b c, leb a b = true -> leb b c = true -> leb a c = true.

(** What every [kind] of [argsort] guarantees: the result is a permutation
    of the positions and lists the keys in non-decreasing order.  Nothing is
    promised on the relative order of equal keys: of the four kinds
    (['quicksort'], ['mergesort'], ['heapsort'], ['stable']) only
    ['mergesort'] and ['stable'] keep it. *)
Record sorting_routine (argsort : argsort_t) : Prop := {
  argsort_perm :
    forall K leb (ks : list K),
      Permutation (argsort K leb ks) (seq 0 (List.length ks));
  argsort_sorted :
    forall K leb (ks : list K),
      total leb -> transitive leb ->
      StronglySorted (fun a b => leb a b = true) (take (argsort K leb ks) ks)
}.

Fixpoint insert_by {A : Type} (before : A -> A -> bool) (x : A) (l : list A)
  : list A :=
  match l with
  | [] => [x]
  | y :: l' => if before x y then x :: l else y :: insert_by before x l'
  end.

(** Insertion sort, from the last element to the first.  With [before] a
    non-strict order it is stable; with a strict one, equal elements come
    out in reverse. *)
Definition insertion_sort {A : Type} (before : A -> A -> bool) (l : list A)
  : list A :=
  fold_right (insert_by before) [] l.

Definition enumerate {A : Type} (l : list A) : list (nat * A) :=
  combine (seq 0 (List.length l)) l.

(** [kind='stable'] (and [kind='mergesort']). *)
Definition argsort_stable : argsort_t :=
  fun K leb ks =>
    map fst (insertion_sort (fun a b => leb (snd a) (snd b)) (enumerate ks)).

(** A sorting routine that is not stable: equal keys come out last first. *)
Definition argsort_reversing : argsort_t :=
  fun K leb ks =>
    map fst (insertion_sort (fun a b => negb (leb (snd b) (snd a)))
                            (enumerate ks)).

(** [pandas.core.sorting.nargsort] with [na_position='last']: missing keys
    are set aside, the others are sorted, and a descending sort is an
    ascending sort of the reversed keys, reversed. *)
Definition nargsort {K : Type} (argsort : argsort_t) (leb : K -> K -> bool)
    (isna : K -> bool) (items : list K) (ascending : bool) : list nat :=
  let non_nan := filter (fun p => negb (isna (snd p))) (enumerate items) in
  let nan_idx := map fst (filter (fun p => isna (snd p)) (enumerate items)) in
  let non_nan := if ascending then non_nan else rev non_nan in
  let indexer := take (argsort K leb (map snd non_nan)) (map fst non_nan) in
  let indexer := if ascending then indexer else rev indexer in
  indexer ++ nan_idx.

(** [Series.nlargest(n)] / [Series.nsmallest(n)] with [keep='first'], as
    positions.  When [n] covers the whole series pandas sorts it with
    [sort_values]; otherwise it selects with a stable sort, so the first
    occurrences win, and missing values come last. *)
Definition select_n (argsort : argsort_t) (largest : bool) (n : nat)
    (values : list float) : list nat :=
  if (n =? 0)%nat then []
  else if (List.length values <=? n)%nat then
    firstn n (nargsort argsort F64.sort_leb F64.is_nan values (negb largest))
  else
    let dropped := filter (fun p => negb (F64.is_nan (snd p))) (enumerate values) in
    let nan_index :=
      map fst (filter (fun p => F64.is_nan (snd p)) (enumerate values)) in
    let arr := map (fun p => (fst p, if largest then F64.neg (snd p) else snd p))
                   dropped in
    let inds := insertion_sort (fun a b => F64.sort_leb (snd a) (snd b)) arr in
    firstn n (map fst (firstn n inds) ++ nan_index).

(** ** Exceptions *)

Inductive exn : Type :=
| ValueError (msg : string)
| IndexError
| TypeError.

Definition result (A : Type) : Type := (exn + A)%type.

Definition bind {A B : Type} (c : result A) (k : A -> result B) : result B :=
  match c with
  | inl e => inl e
  | inr a => k a
  end.

Notation "'do' x <- c ; k" := (bind c (fun x => k))
  (at level 10, x name, c at level 100, k at level 200).

(** ** Rows and frames *)

(** A row of the cleaned table, with its index label. *)
Record Row : Type := mkRow {
  index : nat;
  state : string;
  month : Timestamp.t;
  pop_group : string;
  avg : float
}.

(** The table: its rows in order and, once the aggregator has run, the
    [year] column it adds. *)
Record DataFrame : Type := mkDataFrame {
  rows : list Row;
  year : option (list Z)
}.

Definition columns (df : DataFrame) : list string :=
  ["state"; "month"; "pop_group"; "avg"]
    ++ match year df with Some _ => ["year"] | None => [] end.

(** ** 1. Data loading *)

(** What the driver hands back for the [month] column: NULL, a date, or
    text still to be parsed. *)
Inductive month_cell : Type :=
| MonthNull
| MonthDate (ts : Timestamp.t)
| MonthText (s : string).

(** What the driver hands back for the [avg] column. *)
Inductive avg_cell : Type :=
| AvgNull
| AvgNumber (x : float)
| AvgText (s : string).

(** One fetched tuple [(state, month, pop_group, avg)]. *)
Record raw_row : Type := mkRaw {
  raw_state : option string;
  raw_month : month_cell;
  raw_pop_group : option string;
  raw_avg : avg_cell
}.

(** A row between the column conversions and [dropna]: [None] and NaN are
    the missing values. *)
Record converted_row : Type := mkConverted {
  c_index : nat;
  c_state : option string;
  c_month : option Timestamp.t;
  c_pop_group : option string;
  c_avg : float
}.

Section Loader.

(** The date parser behind [pd.to_datetime] and the number parser behind
    [pd.to_numeric]: [None] when the text is not a date (not a number). *)
Variable parse_datetime : string -> option Timestamp.t.
Variable parse_number : string -> option float.
Variable quicksort : argsort_t.

Definition to_datetime_cell (c : month_cell) : result (option Timestamp.t) :=
  match c with
  | MonthNull => inr None
  | MonthDate ts => inr (Some ts)
  | MonthText s =>
      match parse_datetime s with
      | Some ts => inr (Some ts)
      | None => inl (ValueError s)
      end
  end.

(** [pd.to_datetime(col)] with the default [errors='raise']. *)
Fixpoint to_datetime (col : list month_cell) : result (list (option Timestamp.t)) :=
  match col with
  | [] => inr []
  | c :: col' =>
      do v <- to_datetime_cell c;
      do vs <- to_datetime col';
      inr (v :: vs)
  end.

(** [pd.to_numeric(col, errors='coerce')] on one cell. *)
Definition to_numeric_coerce (c : avg_cell) : float :=
  match c with
  | AvgNull => F64.nan
  | AvgNumber x => x
  | AvgText s =>
      match parse_number s with
      | Some x => x
      | None => F64.nan
      end
  end.

(** [.replace({'s - urban': 's-urban'})]: a whole-value replacement. *)
Definition replace_s_urban (label : string) : string :=
  if String.eqb label "s - urban" then "s-urban" else label.

(** [.str.strip().str.lower().replace({'s - urban': 's-urban'})] *)
Definition normalize_pop_group (label : string) : string :=
  replace_s_urban (Str.lower (Str.strip label)).

(** [.str.strip().str.title()] *)
Definition normalize_state (name : string) : string :=
  Str.title (Str.strip name).

Fixpoint zip_columns (ix : list nat) (st : list (option string))
    (mo : list (option Timestamp.t)) (pg : list (option string))
    (av : list float) : list converted_row :=
  match ix, st, mo, pg, av with
  | i :: ix', s :: st', m :: mo', p :: pg', a :: av' =>
      mkConverted i s m p a :: zip_columns ix' st' mo' pg' av'
  | _, _, _, _, _ => []
  end.

(** [df.dropna()] on one row: kept when no column is missing. *)
Definition dropna_row (r : converted_row) : list Row :=
  match c_state r, c_month r, c_pop_group r with
  | Some s, Some m, Some p =>
      if F64.is_nan (c_avg r) then [] else [mkRow (c_index r) s m p (c_avg r)]
  | _, _, _ => []
  end.

Definition dropna (frame : list converted_row) : list Row :=
  flat_map dropna_row frame.

(** [df.sort_values(by='month')], default [kind]. *)
Definition sort_values_by_month (rs : list Row) : list Row :=
  take (nargsort quicksort Z.leb (fun _ => false) (map month rs) true) rs.

(** The columns after the four conversions of [get_data], before
    [dropna]. *)
Definition convert (fetched : list raw_row) : result (list converted_row) :=
  do month_col <- to_datetime (map raw_month fetched);
  inr (zip_columns (seq 0 (List.length fetched))
         (map (fun r => option_map normalize_state (raw_state r)) fetched)
         month_col
         (map (fun r => option_map normalize_pop_group (raw_pop_group r)) fetched)
         (map (fun r => to_numeric_coerce (raw_avg r)) fetched)).

(** [get_data], from the tuples the query returned. *)
Definition get_data (fetched : list raw_row) : result DataFrame :=
  do frame <- convert fetched;
  inr (mkDataFrame (sort_values_by_month (dropna frame)) None).

End Loader.

(** ** 2. Data analysis *)

(** *** Reductions *)

Definition dropna_values (values : list float) : list float :=
  filter (fun x => negb (F64.is_nan x)) values.

(** [Series.mean()] ([skipna=True]): NaN on an empty series.  The sum is
    accumulated from left to right. *)
Definition series_mean (values : list float) : float :=
  match dropna_values values with
  | [] => F64.nan
  | x :: vs => F64.div (fold_left F64.add vs x) (F64.of_nat (S (List.length vs)))
  end.

Definition series_min (values : list float) : float :=
  match dropna_values values with
  | [] => F64.nan
  | x :: vs => fold_left (fun m v => if F64.ltb v m then v else m) vs x
  end.

Definition series_max (values : list float) : float :=
  match dropna_values values with
  | [] => F64.nan
  | x :: vs => fold_left (fun m v => if F64.ltb m v then v else m) vs x
  end.

(** One step of the running mean and sum of squared deviations kept by
    the grouped variance. *)
Definition var_step (acc : nat * float * float) (val : float)
  : nat * float * float :=
  let '(nobs, mean, m2) := acc in
  let nobs' := S nobs in
  let mean' := F64.add mean (F64.div (F64.sub val mean) (F64.of_nat nobs')) in
  (nobs', mean', F64.add m2 (F64.mul (F64.sub val mean') (F64.sub val mean))).

Definition sum_sq_dev (values : list float) : float :=
  snd (fold_left var_step (dropna_values values) (0%nat, F64.zero, F64.zero)).

(** The ['std'] aggregation, [ddof = 1]: NaN when the group has at most
    [ddof] observations. *)
Definition series_std (values : list float) : float :=
  let ct := List.length (dropna_values values) in
  if (ct <=? 1)%nat then F64.nan
  else F64.sqrt (F64.div (sum_sq_dev values) (F64.of_nat (ct - 1))).

(** [Series.min()] / [Series.max()] of the [month] column: NaT ([None]) on
    an empty one. *)
Definition month_min (rs : list Row) : option Timestamp.t :=
  match rs with
  | [] => None
  | r :: rs' => Some (fold_left Z.min (map month rs') (month r))
  end.

Definition month_max (rs : list Row) : option Timestamp.t :=
  match rs with
  | [] => None
  | r :: rs' => Some (fold_left Z.max (map month rs') (month r))
  end.

(** [df[df['month'] == m]]; nothing equals NaT. *)
Definition rows_at_month (m : option Timestamp.t) (rs : list Row) : list Row :=
  match m with
  | None => []
  | Some ts => filter (fun r => month r =? ts) rs
  end.

(** *** Peak performance *)

(** [numpy.argmax] from a current best: a later value replaces the best
    only when strictly greater. *)
Fixpoint argmax_from (best_i : nat) (best : float) (i : nat) (l : list float)
  : nat :=
  match l with
  | [] => best_i
  | x :: l' =>
      if F64.ltb best x then argmax_from i x (S i) l'
      else argmax_from best_i best (S i) l'
  end.

(** [Series.idxmax()] ([skipna=True]): missing values count as minus
    infinity; the label at the first position of the maximum; an error on
    an empty or all-missing series. *)
Definition idxmax (labels : list nat) (values : list float) : result nat :=
  if forallb F64.is_nan values then
    inl (ValueError "attempt to get argmax of an empty sequence")
  else
    match map (fun x => if F64.is_nan x then F64.neg_infinity else x) values with
    | [] => inl (ValueError "attempt to get argmax of an empty sequence")
    | x :: l => inr (nth (argmax_from 0 x 1 l) labels 0%nat)
    end.

(** [df.loc[label]]: the rows carrying that label. *)
Definition loc (rs : list Row) (label : nat) : list Row :=
  filter (fun r => (index r =? label)%nat) rs.

Record peak : Type := mkPeak {
  value : float;
  details : string
}.

Definition peak_details (r : Row) : string :=
  (Str.capitalize (pop_group r) ++ " in " ++ state r
     ++ " (" ++ Timestamp.strftime_b_Y (month r) ++ ")")%string.

(** [df.loc[df['avg'].idxmax()]]; a label carried by several rows selects a
    frame, not a row, and the formatting of its fields fails. *)
Definition peak_row (rs : list Row) : result Row :=
  do label <- idxmax (map index rs) (map avg rs);
  match loc rs label with
  | [r] => inr r
  | _ => inl TypeError
  end.

Definition peak_performance (rs : list Row) : result peak :=
  do r <- peak_row rs;
  inr (mkPeak (avg r) (peak_details r)).

(** *** Grouping *)

Definition string_leb (a b : string) : bool := String.leb a b.

(** The group keys: the distinct labels in ascending order. *)
Definition group_keys (key : Row -> string) (rs : list Row) : list string :=
  insertion_sort string_leb (nodup string_dec (map key rs)).

(** [df.groupby(key)]: each key with its rows, in table order. *)
Definition groupby (key : Row -> string) (rs : list Row)
  : list (string * list Row) :=
  map (fun k => (k, filter (fun r => String.eqb (key r) k) rs))
      (group_keys key rs).

Record pop_group_row : Type := mkPopGroupRow {
  pg_index : nat;
  pg_label : string;
  mean_avg : float;
  min_avg : float;
  max_avg : float;
  volatility : float
}.

Record state_row : Type := mkStateRow {
  st_index : nat;
  st_name : string;
  st_mean : float;
  record_count : nat
}.

(** [df.groupby('pop_group')['avg'].agg(['mean', 'min', 'max', 'std'])
      .reset_index()] *)
Definition pop_group_analysis (rs : list Row) : list pop_group_row :=
  map (fun '(i, (k, g)) =>
         let vs := map avg g in
         mkPopGroupRow i k (series_mean vs) (series_min vs) (series_max vs)
                       (series_std vs))
      (enumerate (groupby pop_group rs)).

(** [df.groupby('state')['avg'].agg(['mean', 'count']).reset_index()] *)
Definition state_analysis (rs : list Row) : list state_row :=
  map (fun '(i, (k, g)) =>
         let vs := map avg g in
         mkStateRow i k (series_mean vs) (List.length (dropna_values vs)))
      (enumerate (groupby state rs)).

(** *** Growth of one state *)

Record most_improved : Type := mkMostImproved {
  mi_state : string;
  growth : pynum
}.

(** [pd.Series({'state': 'N/A', 'growth': 0})] *)
Definition no_improved_state : most_improved := mkMostImproved "N/A" (PyInt 0).

(** [state_counts = df['state'].value_counts()], read at one state. *)
Definition state_count (rs : list Row) (s : string) : nat :=
  List.length (filter (fun r => String.eqb (state r) s) rs).

(** [df[df['state'].isin(valid_states)]], where the valid states are those
    counted at least twice. *)
Definition valid_growth_rows (rs : list Row) : list Row :=
  filter (fun r => (2 <=? state_count rs (state r))%nat) rs.

(** [((last - first) / first) * 100] *)
Definition growth_pct (first last : float) : float :=
  F64.mul (F64.div (F64.sub last first) first) (F64.of_Z 100).

Section Aggregator.

Variable quicksort : argsort_t.

(** [insights['pop_group_table']]:
    [pop_group_analysis.sort_values(by='Mean Avg', ascending=False)] *)
Definition pop_group_table (rs : list Row) : list pop_group_row :=
  let analysis := pop_group_analysis rs in
  take (nargsort quicksort F64.sort_leb F64.is_nan (map mean_avg analysis) false)
       analysis.

(** [state_analysis.nlargest(5, 'Mean Avg')] *)
Definition top_5_states (rs : list Row) : list state_row :=
  let analysis := state_analysis rs in
  take (select_n quicksort true 5 (map st_mean analysis)) analysis.

(** [state_analysis.nsmallest(5, 'Mean Avg')] *)
Definition bottom_5_states (rs : list Row) : list state_row :=
  let analysis := state_analysis rs in
  take (select_n quicksort false 5 (map st_mean analysis)) analysis.

(** [insights['overall_growth']] *)
Definition overall_growth (rs : list Row) : pynum :=
  let first_month_avg := series_mean (map avg (rows_at_month (month_min rs) rs)) in
  let last_month_avg := series_mean (map avg (rows_at_month (month_max rs) rs)) in
  if F64.truthy first_month_avg
  then PyFloat (growth_pct first_month_avg last_month_avg)
  else PyInt 0.

(** The function applied to each group of [groupby('state')]:
    [x.sort_values('month')['avg']] read at [iloc[0]] and [iloc[-1]]. *)
Definition group_growth (x : list Row) : result float :=
  match map avg (sort_values_by_month quicksort x) with
  | [] => inl IndexError
  | first :: tl => inr (growth_pct first (last tl first))
  end.

(** [df_valid_growth.groupby('state').apply(...).reset_index(name='growth')] *)
Fixpoint apply_growth (groups : list (string * list Row))
  : result (list (string * float)) :=
  match groups with
  | [] => inr []
  | (s, x) :: groups' =>
      do g <- group_growth x;
      do tl <- apply_growth groups';
      inr ((s, g) :: tl)
  end.

Definition state_growth (rs : list Row) : result (list (string * float)) :=
  apply_growth (groupby state (valid_growth_rows rs)).

(** [insights['most_improved_state']] *)
Definition most_improved_state (rs : list Row) : result most_improved :=
  match valid_growth_rows rs with
  | [] => inr no_improved_state
  | _ :: _ =>
      do sg <- state_growth rs;
      match take (select_n quicksort true 1 (map snd sg)) sg with
      | [] => inl IndexError
      | (s, g) :: _ => inr (mkMostImproved s (PyFloat g))
      end
  end.

Record insights : Type := mkInsights {
  date_range : string;
  total_records : nat;
  overall_avg : float;
  peak_performance_of : peak;
  insights_pop_group_table : list pop_group_row;
  insights_top_5_states : list state_row;
  insights_bottom_5_states : list state_row;
  insights_overall_growth : pynum;
  insights_most_improved_state : most_improved
}.

(** [df['month'].min().strftime(...)]: NaT cannot be formatted. *)
Definition format_date_range (rs : list Row) : result string :=
  match month_min rs, month_max rs with
  | Some lo, Some hi =>
      inr (Timestamp.strftime_b_Y lo ++ " to " ++ Timestamp.strftime_b_Y hi)%string
  | _, _ => inl (ValueError "NaTType does not support strftime")
  end.

(** [df['year'] = df['month'].dt.year]: the frame passed in gains (or has
    replaced) a [year] column. *)
Definition set_year (df : DataFrame) : DataFrame :=
  mkDataFrame (rows df) (Some (map (fun r => Timestamp.year (month r)) (rows df))).

(** The analyses that run before the frame is written to. *)
Definition analyze_summary (rs : list Row)
  : result (string * peak) :=
  do range <- format_date_range rs;
  do pk <- peak_performance rs;
  inr (range, pk).

(** [analyze_data(df)]: the insights returned (or the exception raised) and
    the frame as the call leaves it. *)
Definition analyze_data (df : DataFrame) : result insights * DataFrame :=
  let rs := rows df in
  match analyze_summary rs with
  | inl e => (inl e, df)
  | inr (range, pk) =>
      let pop_table := pop_group_table rs in
      let top := top_5_states rs in
      let bottom := bottom_5_states rs in
      let df' := set_year df in
      let og := overall_growth rs in
      (do mi <- most_improved_state rs;
       inr (mkInsights range (List.length rs) (series_mean (map avg rs)) pk
                       pop_table top bottom og mi),
       df')
  end.

End Aggregator.

(** ** Parsers used in the examples *)

Definition digit_value (c : ascii) : option Z :=
  if Str.in_range 48 57 c then Some (Z.of_N (Str.code c) - 48) else None.

Fixpoint digits_value (acc : Z) (s : string) : option Z :=
  match s with
  | EmptyString => Some acc
  | String c s' =>
      match digit_value c with
      | Some d => digits_value (10 * acc + d) s'
      | None => None
      end
  end.

Definition days_in_month (y m : Z) : Z :=
  Timestamp.days_from_civil (if m =? 12 then y + 1 else y)
                            (if m =? 12 then 1 else m + 1) 1
  - Timestamp.days_from_civil y m 1.

(** Dates written [YYYY-MM-DD], one of the forms [pd.to_datetime] reads;
    any other text is rejected. *)
Definition parse_iso_date (s : string) : option Timestamp.t :=
  if (String.length s =? 10)%nat
     && String.eqb (substring 4 1 s) "-" && String.eqb (substring 7 1 s) "-"
  then
    match digits_value 0 (substring 0 4 s), digits_value 0 (substring 5 2 s),
          digits_value 0 (substring 8 2 s) with
    | Some y, Some m, Some d =>
        if (1 <=? m) && (m <=? 12) && (1 <=? d) && (d <=? days_in_month y m)
        then Some (Timestamp.of_date y m d)
        else None
    | _, _, _ => None
    end
  else None.

(** Numbers written as a non-empty run of decimal digits. *)
Definition parse_digits (s : string) : option float :=
  match s with
  | EmptyString => None
  | _ => option_map F64.of_Z (digits_value 0 s)
  end.

Definition fetched_example : list raw_row :=
  [ mkRaw (Some "California") (MonthText "2024-01-01") (Some "Urban") (AvgNumber (F64.of_Z 10));
    mkRaw (Some "California") (MonthText "2024-02-01") (Some "Urban") (AvgNumber (F64.of_Z 20));
    mkRaw (Some "Texas") (MonthText "2024-01-01") (Some "Rural") (AvgNumber (F64.of_Z 5)) ].

(** ** 3. PDF report generation *)

(** A value held in a cell of a rendered table. *)
Inductive pyobj : Type :=
| ObjStr (s : string)
| ObjFloat (x : float)
| ObjInt (z : Z).

(** A frame as [simple_table] sees it: column labels and rows of items. *)
Record table : Type := mkTable {
  t_columns : list string;
  t_rows : list (list pyobj)
}.

(** [df.empty]: some axis has length zero. *)
Definition table_empty (t : table) : bool :=
  match t_columns t, t_rows t with
  | [], _ | _, [] => true
  | _, _ => false
  end.

Definition pop_group_frame (rs : list pop_group_row) : table :=
  mkTable ["POP Group"; "Mean Avg"; "Min Avg"; "Max Avg"; "Volatility (Std Dev)"]
          (map (fun r => [ObjStr (pg_label r); ObjFloat (mean_avg r);
                          ObjFloat (min_avg r); ObjFloat (max_avg r);
                          ObjFloat (volatility r)]) rs).

Definition state_frame (rs : list state_row) : table :=
  mkTable ["State"; "Mean Avg"; "Record Count"]
          (map (fun r => [ObjStr (st_name r); ObjFloat (st_mean r);
                          ObjInt (Z.of_nat (record_count r))]) rs).

(** The calls made on the FPDF document, in order. *)
Inductive op : Type :=
| AddPage
| SetAuthor (author : string)
| SetFont (family style : string) (size : Z)
| SetFillColor (r g b : Z)
| SetY (y : Z)
| Cell (w : pynum) (h : Z) (txt : string) (border ln : Z) (align : string)
       (fill : bool)
| MultiCell (w h : Z) (txt : string)
| Ln (h : option Z)
| Output (filename : string).

(** The document: page geometry, current page number and the calls
    received so far.  Automatic page breaks are not part of the model. *)
Record PDF : Type := mkPDF {
  pdf_w : float;
  l_margin : float;
  page : nat;
  calls : list op
}.

Module Report.

Import MonadNotation.
Local Open Scope monad_scope.

Definition REPORT_TITLE : string := "WLA Historical Performance Analysis".
Definition AUTHOR : string := "Business Intelligence Team".

(** A method of the document: it changes its state and returns nothing. *)
Definition action : Type := StateMonad.state PDF unit.

Definition emit (o : op) : action :=
  d <- get ;;
  put (mkPDF (pdf_w d) (l_margin d) (page d) (calls d ++ [o])).

Fixpoint for_each {A : Type} (l : list A) (body : A -> action)
  : action :=
  match l with
  | [] => ret tt
  | x :: l' => body x ;; for_each l' body
  end.

Section Emitter.

(** [f"{x:.2f}"] and the formatted [datetime.now()] of the header. *)
Variable format_2f : float -> string.
Variable now : string.

Definition header : action :=
  emit (SetFont "Arial" "B" 15) ;;
  emit (Cell (PyInt 0) 10 REPORT_TITLE 0 1 "C" false) ;;
  emit (SetFont "Arial" "" 10) ;;
  emit (Cell (PyInt 0) 5 ("Generated on: " ++ now) 0 1 "C" false) ;;
  emit (Ln (Some 10)).

Definition footer : action :=
  d <- get ;;
  emit (SetY (-15)) ;;
  emit (SetFont "Arial" "I" 8) ;;
  emit (Cell (PyInt 0) 10 ("Page " ++ Str.of_Z (Z.of_nat (page d))) 0 0 "C" false).

(** [add_page]: closes the current page with its footer, opens the next
    and draws its header. *)
Definition add_page : action :=
  d <- get ;;
  (if (0 <? page d)%nat then footer else ret tt) ;;
  d <- get ;;
  put (mkPDF (pdf_w d) (l_margin d) (S (page d)) (calls d ++ [AddPage])) ;;
  header.

(** [output]: closes the last page and writes the file. *)
Definition output (filename : string) : action :=
  footer ;;
  emit (Output filename).

Definition chapter_title (title : string) : action :=
  emit (SetFont "Arial" "B" 12) ;;
  emit (SetFillColor 230 230 230) ;;
  emit (Cell (PyInt 0) 6 title 0 1 "L" true) ;;
  emit (Ln (Some 4)).

Definition kpi_box (label value description : string) : action :=
  emit (SetFont "Arial" "" 10) ;;
  emit (Cell (PyInt 50) 6 label 1 0 "" false) ;;
  emit (SetFont "Arial" "B" 10) ;;
  emit (Cell (PyInt 0) 6 value 1 1 "" false) ;;
  emit (SetFont "Arial" "I" 9) ;;
  emit (MultiCell 0 5 ("  (" ++ description ++ ")")) ;;
  emit (Ln (Some 2)).

(** [str(item)], after the two-decimal formatting of floats. *)
Definition item_text (item : pyobj) : string :=
  match item with
  | ObjStr s => s
  | ObjFloat x => format_2f x
  | ObjInt z => Str.of_Z z
  end.

Definition no_data_cell : op :=
  Cell (PyInt 0) 10 "No data available for this section." 0 1 "" false.

Definition simple_table (df : table) : action :=
  if table_empty df then emit no_data_cell
  else
    emit (SetFont "Arial" "B" 9) ;;
    d <- get ;;
    let page_width := F64.sub (pdf_w d) (F64.mul (F64.of_Z 2) (l_margin d)) in
    let col_width :=
      F64.div page_width (F64.of_nat (List.length (t_columns df))) in
    for_each (t_columns df)
             (fun col => emit (Cell (PyFloat col_width) 7 col 1 0 "C" false)) ;;
    emit (Ln None) ;;
    emit (SetFont "Arial" "" 9) ;;
    for_each (t_rows df)
             (fun row =>
                for_each row
                  (fun item =>
                     emit (Cell (PyFloat col_width) 6 (item_text item) 1 0 "C"
                                false)) ;;
                emit (Ln None)).

Definition format_pct (g : pynum) : string :=
  match g with
  | PyInt z => format_2f (F64.of_Z z)
  | PyFloat x => format_2f x
  end.

(** Section 1: Executive Summary *)
Definition executive_summary (ins : insights) : action :=
  chapter_title "Executive Summary" ;;
  kpi_box "Data Range Analyzed" (date_range ins)
          "The start and end dates of the data included." ;;
  kpi_box "Overall Average `avg`" (format_2f (overall_avg ins))
          "The mean `avg` across all states, pop groups, and months." ;;
  kpi_box "Peak Performance" (format_2f (value (peak_performance_of ins)))
          ("Achieved by " ++ details (peak_performance_of ins) ++ ".") ;;
  kpi_box "Overall Growth" (format_pct (insights_overall_growth ins) ++ "%")
          "Percentage change in avg `avg` from the first to the last month." ;;
  kpi_box "Most Improved State"
          (mi_state (insights_most_improved_state ins) ++ " ("
             ++ format_pct (growth (insights_most_improved_state ins)) ++ "%)")
          "State with the highest percentage growth over the entire period." ;;
  emit (Ln (Some 10)).

(** Section 2: POP Group Performance *)
Definition pop_group_section (ins : insights) : action :=
  chapter_title "Performance by POP Group" ;;
  emit (SetFont "Arial" "" 10) ;;
  emit (MultiCell 0 5 "This section details the performance metrics for each population group, highlighting average performance and volatility.") ;;
  emit (Ln (Some 5)) ;;
  simple_table (pop_group_frame (insights_pop_group_table ins)) ;;
  emit (Ln (Some 10)).

(** Section 3: State-Level Performance *)
Definition state_section (ins : insights) : action :=
  chapter_title "Performance by State" ;;
  emit (SetFont "Arial" "" 10) ;;
  emit (MultiCell 0 5 "The following tables rank states by their average `avg` to identify top performers and areas for potential improvement.") ;;
  emit (Ln (Some 5)) ;;
  emit (SetFont "Arial" "B" 10) ;;
  emit (Cell (PyInt 0) 5 "Top 5 Performing States" 0 1 "" false) ;;
  simple_table (state_frame (insights_top_5_states ins)) ;;
  emit (Ln (Some 5)) ;;
  emit (SetFont "Arial" "B" 10) ;;
  emit (Cell (PyInt 0) 5 "Bottom 5 Performing States" 0 1 "" false) ;;
  simple_table (state_frame (insights_bottom_5_states ins)) ;;
  emit (Ln (Some 5)).

Definition create_report (ins : insights) (filename : string) : action :=
  add_page ;;
  emit (SetAuthor AUTHOR) ;;
  executive_summary ins ;;
  pop_group_section ins ;;
  state_section ins ;;
  output filename.

End Emitter.

End Report.

(** ** 4. Main execution *)

(** [df.empty] *)
Definition empty (df : DataFrame) : bool :=
  match rows df with [] => true | _ => false end.

(** What a run of the script leaves behind: the message that no data was
    found, or the report written under its file name. *)
Inductive outcome : Type :=
| NoDataFound
| ReportGenerated (filename : string) (document : PDF).

(** [f"WLA_Historical_Report_{timestamp}.pdf"] *)
Definition report_filename (timestamp : string) : string :=
  ("WLA_Historical_Report_" ++ timestamp ++ ".pdf")%string.

Section Main.

Variable parse_datetime : string -> option Timestamp.t.
Variable parse_number : string -> option float.
Variable quicksort : argsort_t.
Variable format_2f : float -> string.

(** The two readings of the clock, as formatted by the header and by the
    file name, and the geometry of a new document. *)
Variable now timestamp : string.
Variable page_width margin : float.

(** The body of [if __name__ == "__main__":], from the tuples the query
    returned. *)
Definition main (fetched : list raw_row) : result outcome :=
  do df <- get_data parse_datetime parse_number quicksort fetched;
  if negb (empty df) then
    do insights_data <- fst (analyze_data quicksort df);
    inr (ReportGenerated
           (report_filename timestamp)
           (execState
              (Report.create_report format_2f now insights_data
                                    (report_filename timestamp))
              (mkPDF page_width margin 0 [])))
  else inr NoDataFound.

End Main.

(** ** Bulk load of the spreadsheet ([test.py]) *)

(** [s.replace(old, new)] for one-character [old] and [new]. *)
Definition replace_char (old new : ascii) (s : string) : string :=
  Str.map_chars (fun c => if Ascii.eqb c old then new else c) s.

(** [col.strip().lower().replace(' ', '_').replace('-', '_')] *)
Definition normalize_column (col : string) : string :=
  replace_char "-" "_" (replace_char " " "_" (Str.lower (Str.strip col))).

(** [df.columns = [... for col in df.columns]] *)
Definition normalize_columns (cols : list string) : list string :=
  map normalize_column cols.

(** ** The dashboard ([main.py]) *)

Module Dashboard.

(** [WHERE pop_group IN ('Urban', 'S - Urban', 'Rural')] on a text column:
    a NULL category does not satisfy it. *)
Definition in_query (r : raw_row) : bool :=
  match raw_pop_group r with
  | Some g => existsb (String.eqb g) ["Urban"; "S - Urban"; "Rural"]
  | None => false
  end.

Section LoadData.

Variable parse_datetime : string -> option Timestamp.t.
Variable parse_number : string -> option float.

(** [load_data], from the rows of [master_data]: the same conversions as
    the report's loader, then [dropna(subset=['avg'])] and no sort. *)
Definition load_data (master_data : list raw_row) : result (list converted_row) :=
  do frame <- convert parse_datetime parse_number (filter in_query master_data);
  inr (filter (fun c => negb (F64.is_nan (c_avg c))) frame).

End LoadData.

Definition option_string_dec (a b : option string) : {a = b} + {a <> b}.
Proof. decide equality. apply string_dec. Defined.

Definition is_some {A : Type} (o : option A) : bool :=
  match o with Some _ => true | None => false end.

(** [sorted(df_master['state'].unique())].  The distinct values are
    compared with [<] as soon as there are two of them, and a missing state
    cannot be compared with a string. *)
Definition all_states (df_master : list converted_row)
  : result (list (option string)) :=
  match nodup option_string_dec (map c_state df_master) with
  | [] => inr []
  | [x] => inr [x]
  | u =>
      if forallb is_some u
      then inr (map Some
                  (insertion_sort string_leb
                     (flat_map (fun o => match o with Some x => [x] | None => [] end)
                               u)))
      else inl TypeError
  end.

(** [df_master[df_master['state'].isin(selected_states)]]; a missing state
    is found in a selection that holds the missing value. *)
Definition select_states (selected_states : list (option string))
    (df_master : list converted_row) : list converted_row :=
  filter (fun c => if in_dec option_string_dec (c_state c) selected_states
                   then true else false)
         df_master.

(** A row of [df_display]. *)
Record display_row : Type := mkDisplay {
  d_month : Timestamp.t;
  d_pop_group : string;
  d_avg : float
}.

(** The order of the group keys of [groupby(['month', 'pop_group'])]. *)
Definition key_leb (a b : Timestamp.t * string) : bool :=
  if fst a <? fst b then true
  else if fst a =? fst b then string_leb (snd a) (snd b)
  else false.

Definition key_dec (a b : Timestamp.t * string) : {a = b} + {a <> b}.
Proof. decide equality; [apply string_dec | apply Z.eq_dec]. Defined.

(** The key of a row; a row with a missing month or category belongs to no
    group. *)
Definition row_key (c : converted_row) : list (Timestamp.t * string) :=
  match c_month c, c_pop_group c with
  | Some m, Some g => [(m, g)]
  | _, _ => []
  end.

Definition has_key (k : Timestamp.t * string) (c : converted_row) : bool :=
  if in_dec key_dec k (row_key c) then true else false.

(** [df.groupby(['month', 'pop_group'])['avg'].mean().reset_index()] *)
Definition df_display (df : list converted_row) : list display_row :=
  map (fun k => mkDisplay (fst k) (snd k)
                          (series_mean (map c_avg (filter (has_key k) df))))
      (insertion_sort key_leb (nodup key_dec (flat_map row_key df))).

(** [df_display[df_display['pop_group'] == group]], as the (ds, y) series
    handed to the forecaster. *)
Definition df_prophet (display : list display_row) (group : string)
  : list (Timestamp.t * float) :=
  map (fun r => (d_month r, d_avg r))
      (filter (fun r => String.eqb (d_pop_group r) group) display).

(** What the forecast section does with the series: the error message, or
    [Prophet().fit(series)] and the prediction over [periods] more months. *)
Inductive forecast_step : Type :=
| NotEnoughData
| Fit (series : list (Timestamp.t * float)) (periods : nat).

(** The individual forecast of the selected category. *)
Definition individual_forecast (display : list display_row) (group : string)
    (forecast_months : nat) : forecast_step :=
  let series := df_prophet display group in
  if (List.length series <? 2)%nat then NotEnoughData
  else Fit series forecast_months.

(** The comparative forecast: the categories of [pop_group_options] that
    are fitted, in the order of the loop. *)
Definition pop_group_options (display : list display_row) : list string :=
  insertion_sort string_leb (nodup string_dec (map d_pop_group display)).

Definition comparative_forecast (display : list display_row)
    (forecast_months : nat) : list (string * forecast_step) :=
  flat_map (fun group =>
              match individual_forecast display group forecast_months with
              | NotEnoughData => []
              | step => [(group, step)]
              end)
           (pop_group_options display).

End Dashboard.

(** ** Vocabulary of the properties *)

(** The row that the cleaning steps of [get_data] make of the tuple fetched
    at position [i], when they keep it. *)
Definition clean_row (parse_datetime : string -> option Timestamp.t)
    (parse_number : string -> option float) (i : nat) (raw : raw_row)
  : option Row :=
  match raw_state raw, to_datetime_cell parse_datetime (raw_month raw),
        raw_pop_group raw with
  | Some s, inr (Some m), Some p =>
      let a := to_numeric_coerce parse_number (raw_avg raw) in
      if F64.is_nan a then None
      else Some (mkRow i (normalize_state s) m (normalize_pop_group p) a)
  | _, _, _ => None
  end.

(** The kept rows, in the order of the fetched tuples. *)
Definition cleaned_rows (parse_datetime : string -> option Timestamp.t)
    (parse_number : string -> option float) (fetched : list raw_row)
  : list Row :=
  flat_map (fun p => match clean_row parse_datetime parse_number (fst p) (snd p) with
                     | Some r => [r]
                     | None => []
                     end)
           (enumerate fetched).

(** [b] does not come before [a] in an ascending order with the missing
    values last. *)
Definition ascending (a b : float) : Prop :=
  F64.is_nan b = true \/ F64.leb a b = true.

(** A string that [strip] leaves as it is. *)
Definition stripped (s : string) : Prop :=
  Str.lstrip s = s /\ Str.rstrip s = s.

(** [p] pairs a position of [l] with the element found there. *)
Definition positioned {A} (l : list A) (p : nat * A) : Prop :=
  nth_error l (fst p) = Some (snd p).

(** [b] does not come before [a] in a descending order with the missing
    values last. *)
Definition descending (a b : float) : Prop :=
  F64.is_nan b = true \/ F64.leb b a = true.

(** The order a selection follows: descending for the largest values,
    ascending for the smallest, missing values last in both. *)
Definition selection_order (largest : bool) (a b : float) : Prop :=
  if largest then descending a b else ascending a b.

(** [sel] is a ranking of [all] by mean: the first [n] rows (all of them if
    there are fewer) of an ordering of [all]; the rows left out come after
    every row selected. *)
Definition ranking (largest : bool) (n : nat) (all sel : list state_row) : Prop :=
  List.length sel = Nat.min n (List.length all)
  /\ StronglySorted
       (fun a b => selection_order largest (st_mean a) (st_mean b)) sel
  /\ exists rest,
       Permutation (sel ++ rest) all
       /\ forall a b, In a sel -> In b rest ->
                      selection_order largest (st_mean a) (st_mean b).

(** What the column normalization of [test.py] does to one character once
    the ends are stripped. *)
Definition normalize_column_char (c : ascii) : ascii :=
  let c := Str.lower_char c in
  let c := if Ascii.eqb c " " then "_"%char else c in
  if Ascii.eqb c "-" then "_"%char else c.

(** Strings made of whitespace only. *)
Fixpoint all_space (s : string) : bool :=
  match s with
  | EmptyString => true
  | String c s' => Str.is_space c && all_space s'
  end.

(** Position [r] holds the maximum of [vals], and no earlier position
    does. *)
Definition first_maximum (vals : list float) (r : nat) : Prop :=
  exists b,
    nth_error vals r = Some b
    /\ (forall j x, nth_error vals j = Some x -> F64.leb x b = true)
    /\ (forall j x, (j < r)%nat -> nth_error vals j = Some x ->
                    F64.ltb x b = true).

(** [m] is the earliest month recorded in [rs]. *)
Definition earliest_month (rs : list Row) (m : Timestamp.t) : Prop :=
  (exists r, In r rs /\ month r = m) /\ (forall r, In r rs -> m <= month r).

(** [m] is the latest month recorded in [rs]. *)
Definition latest_month (rs : list Row) (m : Timestamp.t) : Prop :=
  (exists r, In r rs /\ month r = m) /\ (forall r, In r rs -> month r <= m).

(** The rows of one state, in table order. *)
Definition state_rows (rs : list Row) (s : string) : list Row :=
  filter (fun r => String.eqb (state r) s) rs.

(** [g] is the growth of state [s] between a row of its earliest month and
    a row of its latest month. *)
Definition growth_of_state (rs : list Row) (s : string) (g : float) : Prop :=
  exists r0 r1,
    In r0 rs /\ In r1 rs /\ state r0 = s /\ state r1 = s
    /\ (forall r, In r rs -> state r = s ->
                  month r0 <= month r /\ month r <= month r1)
    /\ g = F64.mul (F64.div (F64.sub (avg r1) (avg r0)) (avg r0)) (F64.of_Z 100).

(** The table the loader builds from [fetched_example]. *)
Definition example_frame : DataFrame :=
  mkDataFrame
    [ mkRow 0 "California" (Timestamp.of_date 2024 1 1) "urban" (F64.of_Z 10);
      mkRow 2 "Texas" (Timestamp.of_date 2024 1 1) "rural" (F64.of_Z 5);
      mkRow 1 "California" (Timestamp.of_date 2024 2 1) "urban" (F64.of_Z 20) ]
    None.

(** Two categories, one row each, with the same value. *)
Definition rows_equal_means : list Row :=
  [ mkRow 0 "Texas" (Timestamp.of_date 2024 1 1) "rural" (F64.of_Z 5);
    mkRow 1 "Texas" (Timestamp.of_date 2024 1 1) "urban" (F64.of_Z 5) ].

(** The example rows followed by one whose month is not a date. *)
Definition fetched_unparsable : list raw_row :=
  fetched_example
    ++ [ mkRaw (Some "Texas") (MonthText "not a date") (Some "Rural")
               (AvgNumber (F64.of_Z 7)) ].

(** The example rows followed by one whose month is NULL. *)
Definition fetched_null_month : list raw_row :=
  fetched_example
    ++ [ mkRaw (Some "Texas") MonthNull (Some "Rural") (AvgNumber (F64.of_Z 7)) ].

(** Rows of [master_data] for the examples of the dashboard: two rows of a
    queried category, one of them with no month, one row of another
    category and one row whose [avg] is not a number. *)
Definition master_example : list raw_row :=
  [ mkRaw (Some "texas") (MonthText "2024-01-01") (Some "S - Urban")
          (AvgNumber (F64.of_Z 5));
    mkRaw (Some "Ohio") (MonthText "2024-01-01") (Some "Semi Urban")
          (AvgNumber (F64.of_Z 6));
    mkRaw (Some "Ohio") MonthNull (Some "Rural") (AvgNumber (F64.of_Z 7));
    mkRaw (Some "Ohio") (MonthText "2024-02-01") (Some "Urban") (AvgText "n/a") ].

(** Rows of [master_data] of which one has no state. *)
Definition master_missing_state : list raw_row :=
  [ mkRaw (Some "texas") (MonthText "2024-01-01") (Some "Urban")
          (AvgNumber (F64.of_Z 5));
    mkRaw None (MonthText "2024-01-01") (Some "Rural") (AvgNumber (F64.of_Z 7)) ].

(** All the rows of a category that have a month have the same one. *)
Definition single_month (df : list converted_row) (group : string) : Prop :=
  forall c c' m m',
    In c df -> In c' df ->
    c_pop_group c = Some group -> c_pop_group c' = Some group ->
    c_month c = Some m -> c_month c' = Some m' -> m = m'.

(** The category has rows in two different months. *)
Definition two_months (df : list converted_row) (group : string) : Prop :=
  exists c c' m m',
    In c df /\ In c' df
    /\ c_pop_group c = Some group /\ c_pop_group c' = Some group
    /\ c_month c = Some m /\ c_month c' = Some m' /\ m <> m'.

(** Selected rows: two months of urban rows, one month of rural rows. *)
Definition selected_example : list converted_row :=
  [ mkConverted 0 (Some "Texas") (Some (Timestamp.of_date 2024 2 1))
                (Some "urban") (F64.of_Z 6);
    mkConverted 1 (Some "Ohio") (Some (Timestamp.of_date 2024 1 1))
                (Some "urban") (F64.of_Z 4);
    mkConverted 2 (Some "Texas") (Some (Timestamp.of_date 2024 1 1))
                (Some "urban") (F64.of_Z 8);
    mkConverted 3 (Some "Ohio") (Some (Timestamp.of_date 2024 1 1))
                (Some "rural") (F64.of_Z 3);
    mkConverted 4 (Some "Texas") (Some (Timestamp.of_date 2024 1 1))
                (Some "rural") (F64.of_Z 5) ].

(** The claim that the aggregator leaves the frame as it received it. *)
Definition analyze_data_leaves_frame : Prop :=
  forall qs df ins,
    fst (analyze_data qs df) = inr ins -> snd (analyze_data qs df) = df.

(** The claim that the load always succeeds, whatever the month cells
    hold. *)
Definition unparsable_months_are_dropped : Prop :=
  forall parse_datetime parse_number qs fetched,
  exists df, get_data parse_datetime parse_number qs fetched = inr df.

(** The claim that rows of equal month leave the loader in the order they
    had before the sort. *)
Definition loader_sort_is_stable : Prop :=
  forall parse_datetime parse_number qs,
    sorting_routine qs ->
    forall fetched frame df,
      convert parse_datetime parse_number fetched = inr frame ->
      get_data parse_datetime parse_number qs fetched = inr df ->
      forall m,
        filter (fun r => month r =? m) (rows df)
        = filter (fun r => month r =? m) (dropna frame).

(** The claim that, in the per-category table, a category placed before
    another of equal mean has the smaller label. *)
Definition equal_means_in_label_order : Prop :=
  forall qs, sorting_routine qs ->
  forall rs l1 t1 l2 t2 l3,
    pop_group_table qs rs = l1 ++ t1 :: l2 ++ t2 :: l3 ->
    F64.eqb (mean_avg t1) (mean_avg t2) = true ->
    String.ltb (pg_label t1) (pg_label t2) = true.

(** * Properties *)

(** ** Positional selection *)

Lemma take_app {A} (a b : list nat) (l : list A) :
  take (a ++ b) l = take a l ++ take b l.
Proof. unfold take. apply flat_map_app. Qed.

Lemma take_In {A} (ix : list nat) (l : list A) (x : A) :
  In x (take ix l) -> In x l.
Proof.
  unfold take. rewrite in_flat_map. intros [i [_ Hx]].
  destruct (nth_error l i) eqn:E; simpl in Hx; [|contradiction].
  destruct Hx as [<-|[]]. eapply nth_error_In; eauto.
Qed.

Lemma take_map {A B} (f : A -> B) (ix : list nat) (l : list A) :
  map f (take ix l) = take ix (map f l).
Proof.
  induction ix as [|i ix IH]; simpl; [reflexivity|].
  rewrite map_app, IH, nth_error_map.
  destruct (nth_error l i); reflexivity.
Qed.

Lemma take_rev {A} (ix : list nat) (l : list A) :
  take (rev ix) l = rev (take ix l).
Proof.
  induction ix as [|i ix IH]; simpl; [reflexivity|].
  rewrite take_app, IH, rev_app_distr. simpl.
  destruct (nth_error l i); reflexivity.
Qed.

Lemma take_seq_shift {A} (pre l : list A) :
  take (seq (List.length pre) (List.length l)) (pre ++ l) = l.
Proof.
  revert pre. induction l as [|x l IH]; intros pre; simpl; [reflexivity|].
  rewrite nth_error_app2, Nat.sub_diag by lia. simpl. f_equal.
  specialize (IH (pre ++ [x])).
  rewrite length_app, <- app_assoc in IH. simpl in IH.
  rewrite Nat.add_1_r in IH. exact IH.
Qed.

Lemma take_seq_all {A} (l : list A) : take (seq 0 (List.length l)) l = l.
Proof. exact (take_seq_shift [] l). Qed.

Lemma take_perm {A} (ix : list nat) (l : list A) :
  Permutation ix (seq 0 (List.length l)) -> Permutation (take ix l) l.
Proof.
  intros H. rewrite <- (take_seq_all l) at 2.
  unfold take. apply Permutation_flat_map. exact H.
Qed.

Lemma take_valid_nth {A} (p : list nat) (l : list A) (i : nat) :
  Forall (fun j => (j < List.length l)%nat) p ->
  nth_error (take p l) i =
  match nth_error p i with Some j => nth_error l j | None => None end.
Proof.
  intros H. revert i. induction H as [|j p Hj Hp IH]; intros i.
  - destruct i; reflexivity.
  - simpl. destruct (nth_error l j) eqn:E.
    + destruct i; simpl; [exact (eq_sym E) | apply IH].
    + apply nth_error_None in E. lia.
Qed.

Lemma take_take {A} (a p : list nat) (l : list A) :
  Forall (fun j => (j < List.length l)%nat) p ->
  take (take a p) l = take a (take p l).
Proof.
  intros H. induction a as [|i a IH]; simpl; [reflexivity|].
  rewrite take_app, IH, (take_valid_nth p l i H).
  destruct (nth_error p i) as [j|]; simpl; [|reflexivity].
  rewrite app_nil_r. reflexivity.
Qed.

(** ** Enumerated lists *)

Lemma enumerate_fst {A} (l : list A) :
  map fst (enumerate l) = seq 0 (List.length l).
Proof.
  unfold enumerate. generalize 0%nat. induction l; intros n; simpl; f_equal; auto.
Qed.

Lemma enumerate_snd {A} (l : list A) : map snd (enumerate l) = l.
Proof.
  unfold enumerate. generalize 0%nat. induction l; intros n; simpl; f_equal; auto.
Qed.

Lemma enumerate_length {A} (l : list A) :
  List.length (enumerate l) = List.length l.
Proof. rewrite <- (length_map fst), enumerate_fst, length_seq. reflexivity. Qed.

Lemma enumerate_positioned {A} (l : list A) :
  Forall (positioned l) (enumerate l).
Proof.
  apply Forall_forall. intros [i x] Hin. unfold positioned; simpl.
  unfold enumerate in Hin.
  destruct (In_nth _ _ (0%nat, x) Hin) as [k [Hk Hn]].
  rewrite length_combine, length_seq, Nat.min_id in Hk.
  rewrite combine_nth in Hn by (rewrite length_seq; reflexivity).
  rewrite seq_nth in Hn by exact Hk. inversion Hn; subst.
  simpl. transitivity (Some (nth i l x)).
  - apply nth_error_nth'. exact Hk.
  - congruence.
Qed.

Lemma positioned_take {A} (l : list A) (sub : list (nat * A)) :
  Forall (positioned l) sub -> take (map fst sub) l = map snd sub.
Proof.
  induction 1 as [|p sub Hp _ IH]; simpl; [reflexivity|].
  rewrite Hp, IH. reflexivity.
Qed.

Lemma positioned_valid {A} (l : list A) (sub : list (nat * A)) :
  Forall (positioned l) sub ->
  Forall (fun j => (j < List.length l)%nat) (map fst sub).
Proof.
  induction 1 as [|p sub Hp _ IH]; simpl; constructor; auto.
  apply nth_error_Some. unfold positioned in Hp. congruence.
Qed.

Lemma positioned_take_take {A} (a : list nat) (l : list A) (sub : list (nat * A)) :
  Forall (positioned l) sub ->
  take (take a (map fst sub)) l = take a (map snd sub).
Proof.
  intros H. rewrite take_take by (apply positioned_valid; exact H).
  rewrite positioned_take by exact H. reflexivity.
Qed.

Lemma Forall_filter_keep {A} (P : A -> Prop) (f : A -> bool) (l : list A) :
  Forall P l -> Forall P (filter f l).
Proof.
  rewrite !Forall_forall. intros H x Hx. apply filter_In in Hx. apply H, Hx.
Qed.

Lemma filter_split_perm {A} (f : A -> bool) (l : list A) :
  Permutation (filter (fun x => negb (f x)) l ++ filter f l) l.
Proof.
  induction l as [|x l IH]; simpl; [constructor|].
  destruct (f x); simpl.
  - apply Permutation_sym, Permutation_cons_app, Permutation_sym, IH.
  - constructor. exact IH.
Qed.

Lemma filter_all {A} (f : A -> bool) (l : list A) :
  (forall x, In x l -> f x = true) -> filter f l = l.
Proof.
  induction l as [|x l IH]; intros H; simpl; [reflexivity|].
  rewrite (H x (or_introl eq_refl)). f_equal. apply IH.
  intros y Hy. apply H. right. exact Hy.
Qed.

Lemma filter_none {A} (f : A -> bool) (l : list A) :
  (forall x, In x l -> f x = false) -> filter f l = [].
Proof.
  induction l as [|x l IH]; intros H; simpl; [reflexivity|].
  rewrite (H x (or_introl eq_refl)). apply IH.
  intros y Hy. apply H. right. exact Hy.
Qed.

(** ** Insertion sort and the two sorting routines *)

Lemma StronglySorted_impl_rel {A} (R R' : A -> A -> Prop) (l : list A) :
  (forall a b, R a b -> R' a b) -> StronglySorted R l -> StronglySorted R' l.
Proof.
  intros H. induction 1; constructor; auto.
  eapply Forall_impl; [|eassumption]. intros; auto.
Qed.

Lemma StronglySorted_map {A B} (f : A -> B) (R : B -> B -> Prop) (l : list A) :
  StronglySorted (fun a b => R (f a) (f b)) l <-> StronglySorted R (map f l).
Proof.
  induction l as [|x l IH]; simpl.
  - split; constructor.
  - split; intros H; inversion H; subst; constructor; try (apply IH; assumption).
    + apply Forall_map. assumption.
    + apply Forall_map. assumption.
Qed.

Lemma StronglySorted_app {A} (R : A -> A -> Prop) (l1 l2 : list A) :
  StronglySorted R l1 -> StronglySorted R l2 ->
  (forall a b, In a l1 -> In b l2 -> R a b) ->
  StronglySorted R (l1 ++ l2).
Proof.
  induction l1 as [|x l1 IH]; simpl; intros H1 H2 H; [exact H2|].
  inversion H1; subst. constructor.
  - apply IH; auto.
  - apply Forall_app. split; [assumption|].
    apply Forall_forall. intros b Hb. apply H; auto.
Qed.

Lemma StronglySorted_rev {A} (R : A -> A -> Prop) (l : list A) :
  StronglySorted R l -> StronglySorted (fun a b => R b a) (rev l).
Proof.
  induction 1 as [|x l Hl IH Hx]; simpl; [constructor|].
  apply StronglySorted_app; [exact IH | repeat constructor |].
  intros a b Ha [<-|[]]. apply in_rev in Ha.
  rewrite Forall_forall in Hx. apply Hx, Ha.
Qed.

Lemma insert_by_perm {A} (before : A -> A -> bool) (x : A) (l : list A) :
  Permutation (insert_by before x l) (x :: l).
Proof.
  induction l as [|y l IH]; simpl; [reflexivity|].
  destruct (before x y); [reflexivity|].
  rewrite IH. apply perm_swap.
Qed.

Lemma insertion_sort_perm {A} (before : A -> A -> bool) (l : list A) :
  Permutation (insertion_sort before l) l.
Proof.
  induction l as [|x l IH]; simpl; [reflexivity|].
  rewrite insert_by_perm. constructor. exact IH.
Qed.

Section InsertionSorted.

Context {A : Type} (le before : A -> A -> bool).
Hypothesis le_trans : transitive le.
Hypothesis before_le : forall x y, before x y = true -> le x y = true.
Hypothesis not_before_le : forall x y, before x y = false -> le y x = true.

Lemma insert_by_sorted (x : A) (l : list A) :
  StronglySorted (fun a b => le a b = true) l ->
  StronglySorted (fun a b => le a b = true) (insert_by before x l).
Proof.
  induction 1 as [|y l Hl IH Hy]; simpl.
  - repeat constructor.
  - destruct (before x y) eqn:E.
    + constructor; [constructor; assumption|].
      constructor; [apply before_le; exact E|].
      eapply Forall_impl; [|exact Hy].
      intros z Hz. eapply le_trans; [apply before_le; exact E | exact Hz].
    + constructor; [exact IH|].
      eapply Permutation_Forall; [symmetry; apply insert_by_perm|].
      constructor; [apply not_before_le; exact E | exact Hy].
Qed.

Lemma insertion_sort_sorted (l : list A) :
  StronglySorted (fun a b => le a b = true) (insertion_sort before l).
Proof.
  induction l as [|x l IH]; simpl; [constructor|].
  apply insert_by_sorted. exact IH.
Qed.

End InsertionSorted.

Lemma insertion_argsort_routine
    (before : forall K : Type, (K -> K -> bool) -> nat * K -> nat * K -> bool) :
  (forall K (leb : K -> K -> bool), total leb ->
     forall a b,
       (before K leb a b = true -> leb (snd a) (snd b) = true)
       /\ (before K leb a b = false -> leb (snd b) (snd a) = true)) ->
  sorting_routine
    (fun K leb ks => map fst (insertion_sort (before K leb) (enumerate ks))).
Proof.
  intros Hb. split.
  - intros K leb ks. rewrite <- enumerate_fst.
    apply Permutation_map, insertion_sort_perm.
  - intros K leb ks Htot Htrans.
    rewrite positioned_take.
    + apply StronglySorted_map with (f := snd) (R := fun a b => leb a b = true).
      apply insertion_sort_sorted with (le := fun a b => leb (snd a) (snd b)).
      * intros a b c. apply Htrans.
      * intros x y. apply (Hb K leb Htot x y).
      * intros x y. apply (Hb K leb Htot x y).
    + eapply Permutation_Forall; [symmetry; apply insertion_sort_perm|].
      apply enumerate_positioned.
Qed.

Lemma argsort_stable_routine : sorting_routine argsort_stable.
Proof.
  apply (insertion_argsort_routine (fun K leb a b => leb (snd a) (snd b))).
  intros K leb Htot a b. split; [auto|].
  intros H. destruct (Htot (snd a) (snd b)); congruence.
Qed.

Lemma argsort_reversing_routine : sorting_routine argsort_reversing.
Proof.
  apply (insertion_argsort_routine (fun K leb a b => negb (leb (snd b) (snd a)))).
  intros K leb Htot a b. split; intros H.
  - apply negb_true_iff in H. destruct (Htot (snd a) (snd b)); congruence.
  - apply negb_false_iff in H. exact H.
Qed.

(** ** [nargsort] *)

Lemma filter_enumerate_snd {A} (f : A -> bool) (l : list A) :
  map snd (filter (fun p => f (snd p)) (enumerate l)) = filter f l.
Proof.
  unfold enumerate. generalize 0%nat.
  induction l as [|x l IH]; intros n; simpl; [reflexivity|].
  destruct (f x); simpl; rewrite IH; reflexivity.
Qed.

Section Nargsort.

Context {K : Type} (qs : argsort_t) (leb : K -> K -> bool) (isna : K -> bool).
Hypothesis qs_routine : sorting_routine qs.

Lemma nargsort_perm (items : list K) (ascending : bool) :
  Permutation (nargsort qs leb isna items ascending)
              (seq 0 (List.length items)).
Proof.
  unfold nargsort.
  set (E := enumerate items).
  set (nn := filter (fun p => negb (isna (snd p))) E).
  rewrite <- (enumerate_fst items). fold E.
  rewrite <- (filter_split_perm (fun p => isna (snd p)) E) at 2.
  rewrite map_app. apply Permutation_app_tail. fold nn.
  assert (H : forall sub : list (nat * K),
             Permutation (take (qs K leb (map snd sub)) (map fst sub)) (map fst sub)).
  { intros sub. apply take_perm.
    rewrite length_map, <- (length_map snd). apply (argsort_perm qs qs_routine). }
  destruct ascending.
  - apply H.
  - rewrite <- Permutation_rev, H, map_rev. symmetry. apply Permutation_rev.
Qed.

Lemma take_nargsort (items : list K) (ascending : bool) :
  let V := filter (fun x => negb (isna x)) items in
  take (nargsort qs leb isna items ascending) items =
  (if ascending then take (qs K leb V) V
   else rev (take (qs K leb (rev V)) (rev V)))
    ++ filter isna items.
Proof.
  intros V. unfold nargsort. rewrite take_app. f_equal.
  - assert (Hpos : Forall (positioned items)
                     (filter (fun p => negb (isna (snd p))) (enumerate items))).
    { apply Forall_filter_keep, enumerate_positioned. }
    destruct ascending.
    + rewrite positioned_take_take by exact Hpos.
      rewrite (filter_enumerate_snd (fun x => negb (isna x))). reflexivity.
    + rewrite take_rev. f_equal.
      rewrite positioned_take_take.
      * rewrite map_rev, (filter_enumerate_snd (fun x => negb (isna x))).
        reflexivity.
      * apply Forall_rev. exact Hpos.
  - rewrite positioned_take.
    + apply (filter_enumerate_snd isna).
    + apply Forall_filter_keep, enumerate_positioned.
Qed.

End Nargsort.

(** ** [sort_values(by='month')] *)

Section SortByMonth.

Variable qs : argsort_t.
Hypothesis qs_routine : sorting_routine qs.

Lemma Zleb_total : total Z.leb.
Proof. intros a b. rewrite !Z.leb_le. lia. Qed.

Lemma Zleb_trans : transitive Z.leb.
Proof. intros a b c. rewrite !Z.leb_le. lia. Qed.

Lemma sort_values_by_month_perm (rs : list Row) :
  Permutation (sort_values_by_month qs rs) rs.
Proof.
  unfold sort_values_by_month. apply take_perm.
  rewrite <- (length_map month). apply nargsort_perm. exact qs_routine.
Qed.

Lemma sort_values_by_month_sorted (rs : list Row) :
  StronglySorted (fun a b => month a <= month b) (sort_values_by_month qs rs).
Proof.
  apply StronglySorted_map with (f := month) (R := fun a b => a <= b).
  unfold sort_values_by_month.
  rewrite take_map, take_nargsort. simpl.
  rewrite (filter_all (fun _ => negb false)) by reflexivity.
  rewrite (filter_none (fun _ => false)) by reflexivity.
  rewrite app_nil_r.
  eapply StronglySorted_impl_rel;
    [|apply (argsort_sorted qs qs_routine Z Z.leb (map month rs) Zleb_total Zleb_trans)].
  intros a b. apply Z.leb_le.
Qed.

End SortByMonth.

(** ** The order on float64 *)

Module F64Facts.

Ltac cmp_cases :=
  repeat match goal with
  | H : context [Z.compare ?x ?y] |- _ =>
      destruct (Z.compare_spec x y); simpl in H
  | |- context [Z.compare ?x ?y] =>
      destruct (Z.compare_spec x y); simpl
  | H : context [Pos.compare_cont Eq ?x ?y] |- _ =>
      change (Pos.compare_cont Eq x y) with (Pos.compare x y) in H;
      destruct (Pos.compare_spec x y); simpl in H
  | |- context [Pos.compare_cont Eq ?x ?y] =>
      change (Pos.compare_cont Eq x y) with (Pos.compare x y);
      destruct (Pos.compare_spec x y); simpl
  end.

Ltac float_cases :=
  unfold F64.sort_leb, F64.leb, F64.ltb, F64.eqb, F64.is_nan, F64.neg,
    F64.truthy, F64.zero, SFleb, SFltb, SFeqb, SFcompare, SFopp in *;
  repeat match goal with
  | x : float |- _ => destruct x
  | x : spec_float |- _ => destruct x
  | b : bool |- _ => destruct b
  end; simpl in *; try discriminate; try reflexivity; try tauto;
  cmp_cases; subst; try discriminate; try reflexivity; try tauto; try lia.

Lemma leb_refl a : F64.is_nan a = false -> F64.leb a a = true.
Proof. float_cases. Qed.

Lemma leb_trans a b c :
  F64.leb a b = true -> F64.leb b c = true -> F64.leb a c = true.
Proof. float_cases. Qed.

Lemma leb_ltb_trans a b c :
  F64.leb a b = true -> F64.ltb b c = true -> F64.ltb a c = true.
Proof. float_cases. Qed.

Lemma ltb_leb a b : F64.ltb a b = true -> F64.leb a b = true.
Proof. float_cases. Qed.

Lemma not_ltb_leb a b :
  F64.is_nan a = false -> F64.is_nan b = false ->
  F64.ltb a b = false -> F64.leb b a = true.
Proof. float_cases. Qed.

Lemma leb_not_ltb a b : F64.leb b a = true -> F64.ltb a b = false.
Proof. float_cases. Qed.

Lemma ltb_nan_l a b : F64.is_nan a = true -> F64.ltb a b = false.
Proof. float_cases. Qed.

Lemma ltb_irrefl a : F64.ltb a a = false.
Proof. float_cases. Qed.

Lemma sort_leb_refl a : F64.sort_leb a a = true.
Proof. float_cases. Qed.

Lemma ltb_nan_r a b : F64.is_nan b = true -> F64.ltb a b = false.
Proof. float_cases. Qed.

Lemma leb_neg a b : F64.leb (F64.neg a) (F64.neg b) = F64.leb b a.
Proof. float_cases. Qed.

Lemma is_nan_neg a : F64.is_nan (F64.neg a) = F64.is_nan a.
Proof. float_cases. Qed.

Lemma sort_leb_total : total F64.sort_leb.
Proof. intros a b. float_cases. Qed.

Lemma sort_leb_trans : transitive F64.sort_leb.
Proof. intros a b c. float_cases. Qed.

Lemma sort_leb_leb a b :
  F64.is_nan b = false -> F64.sort_leb a b = F64.leb a b.
Proof. float_cases. Qed.

Lemma eqb_zero_not_truthy a : F64.eqb a F64.zero = true -> F64.truthy a = false.
Proof. float_cases. Qed.

End F64Facts.

(** ** Peak performance *)

Lemma argmax_from_first_maximum (l pre : list float) (bi : nat) (b : float) :
  Forall (fun x => F64.is_nan x = false) (pre ++ l) ->
  nth_error pre bi = Some b ->
  (forall j x, nth_error pre j = Some x -> F64.leb x b = true) ->
  (forall j x, (j < bi)%nat -> nth_error pre j = Some x -> F64.ltb x b = true) ->
  first_maximum (pre ++ l) (argmax_from bi b (List.length pre) l).
Proof.
  revert pre bi b. induction l as [|x l IH]; intros pre bi b Hnn Hb Hmax Hfirst.
  - simpl. rewrite app_nil_r. exists b. auto.
  - simpl.
    assert (Hx : F64.is_nan x = false).
    { rewrite Forall_forall in Hnn. apply Hnn. apply in_elt. }
    assert (Hbn : F64.is_nan b = false).
    { rewrite Forall_forall in Hnn. apply Hnn. apply in_or_app. left.
      eapply nth_error_In; eauto. }
    assert (Hlen : List.length (pre ++ [x]) = S (List.length pre)).
    { rewrite length_app. simpl. lia. }
    assert (Hbi : (bi < List.length pre)%nat).
    { apply nth_error_Some. congruence. }
    replace (pre ++ x :: l) with ((pre ++ [x]) ++ l) in *
      by (rewrite <- app_assoc; reflexivity).
    rewrite <- Hlen.
    destruct (F64.ltb b x) eqn:E.
    + apply IH; auto.
      * rewrite nth_error_app2, Nat.sub_diag by lia. reflexivity.
      * intros j y Hj.
        destruct (Nat.lt_ge_cases j (List.length pre)) as [Hlt|Hge].
        -- rewrite nth_error_app1 in Hj by exact Hlt.
           eapply F64Facts.leb_trans; [eapply Hmax; eauto|].
           apply F64Facts.ltb_leb. exact E.
        -- rewrite nth_error_app2 in Hj by exact Hge.
           destruct (j - List.length pre)%nat as [|k]; simpl in Hj.
           ++ inversion Hj; subst. apply F64Facts.leb_refl. exact Hx.
           ++ destruct k; discriminate.
      * intros j y Hlt Hj.
        rewrite nth_error_app1 in Hj by exact Hlt.
        eapply F64Facts.leb_ltb_trans; [eapply Hmax; eauto | exact E].
    + apply IH; auto.
      * rewrite nth_error_app1 by exact Hbi. exact Hb.
      * intros j y Hj.
        destruct (Nat.lt_ge_cases j (List.length pre)) as [Hlt|Hge].
        -- rewrite nth_error_app1 in Hj by exact Hlt. eapply Hmax; eauto.
        -- rewrite nth_error_app2 in Hj by exact Hge.
           destruct (j - List.length pre)%nat as [|k]; simpl in Hj.
           ++ inversion Hj; subst. apply F64Facts.not_ltb_leb; auto.
           ++ destruct k; discriminate.
      * intros j y Hlt Hj.
        rewrite nth_error_app1 in Hj by lia. eapply Hfirst; eauto.
Qed.

Lemma loc_unique (rs : list Row) (i : nat) (r : Row) :
  NoDup (map index rs) -> nth_error rs i = Some r -> loc rs (index r) = [r].
Proof.
  unfold loc. revert i. induction rs as [|a rs IH]; intros i Hnd Hi.
  - destruct i; discriminate.
  - simpl in Hnd. inversion Hnd as [|? ? Hnotin Hnd']; subst.
    destruct i as [|i]; simpl in Hi.
    + inversion Hi; subst. simpl. rewrite Nat.eqb_refl. f_equal.
      apply filter_none. intros y Hy. apply Nat.eqb_neq. intros Heq.
      apply Hnotin. rewrite <- Heq. apply in_map. exact Hy.
    + simpl. destruct (Nat.eqb_spec (index a) (index r)) as [Heq|Hne].
      * exfalso. apply Hnotin. rewrite Heq. apply in_map.
        eapply nth_error_In; eauto.
      * eapply IH; eauto.
Qed.

Lemma fill_no_nan (vals : list float) :
  Forall (fun x => F64.is_nan x = false) vals ->
  map (fun x => if F64.is_nan x then F64.neg_infinity else x) vals = vals.
Proof.
  induction 1 as [|x l Hx _ IH]; simpl; [reflexivity|].
  rewrite Hx, IH. reflexivity.
Qed.

(** The row read by [df.loc[df['avg'].idxmax()]]. *)
Lemma peak_row_first_maximum (rs : list Row) :
  rs <> [] ->
  NoDup (map index rs) ->
  Forall (fun r => F64.is_nan (avg r) = false) rs ->
  exists i r,
    nth_error rs i = Some r
    /\ peak_row rs = inr r
    /\ (forall r', In r' rs -> F64.leb (avg r') (avg r) = true)
    /\ (forall j r', (j < i)%nat -> nth_error rs j = Some r' ->
                     F64.ltb (avg r') (avg r) = true).
Proof.
  intros Hne Hnd Hnn.
  destruct rs as [|r0 rs']; [congruence|].
  set (rs := r0 :: rs') in *.
  assert (Hvals : Forall (fun x => F64.is_nan x = false) (map avg rs)).
  { apply Forall_map. exact Hnn. }
  assert (H0 : F64.is_nan (avg r0) = false) by (inversion Hnn; assumption).
  destruct (argmax_from_first_maximum (map avg rs') [avg r0] 0 (avg r0))
    as [b [Hb [Hmax Hfirst]]].
  - exact Hvals.
  - reflexivity.
  - intros [|[|j]] x Hj; simpl in Hj; try discriminate.
    inversion Hj; subst. apply F64Facts.leb_refl. exact H0.
  - intros j x Hj. lia.
  - simpl in Hb, Hmax, Hfirst.
    set (i := argmax_from 0 (avg r0) 1 (map avg rs')) in *.
    change (avg r0 :: map avg rs') with (map avg rs) in *.
    rewrite nth_error_map in Hb.
    destruct (nth_error rs i) as [r|] eqn:Hr; [|discriminate].
    inversion Hb; subst b.
    assert (Hrow : peak_row rs = inr r).
    { unfold peak_row, idxmax.
      change (forallb F64.is_nan (map avg rs)) with
        (F64.is_nan (avg r0) && forallb F64.is_nan (map avg rs'))%bool.
      rewrite H0. simpl andb. cbv iota.
      rewrite fill_no_nan by exact Hvals.
      change (map avg rs) with (avg r0 :: map avg rs').
      cbv beta iota. fold i. unfold bind.
      replace (nth i (map index rs) 0%nat) with (index r).
      - rewrite (loc_unique rs i r Hnd Hr). reflexivity.
      - symmetry. apply nth_error_nth. rewrite nth_error_map, Hr. reflexivity. }
    exists i, r. repeat split.
    + exact Hr.
    + exact Hrow.
    + intros r' Hin. destruct (In_nth_error _ _ Hin) as [j Hj].
      apply (Hmax j). rewrite nth_error_map, Hj. reflexivity.
    + intros j r' Hlt Hj. apply (Hfirst j); [exact Hlt|].
      rewrite nth_error_map, Hj. reflexivity.
Qed.

(** C3.  On a non-empty table with distinct index labels and no missing
    [avg], the peak-performance record is built from a row holding the
    maximum [avg], and every row placed before it in the table holds a
    strictly smaller [avg]: among the rows that tie for the maximum, the
    first one in table order is selected. *)
Theorem peak_performance_first_maximum (rs : list Row) :
  rs <> [] ->
  NoDup (map index rs) ->
  Forall (fun r => F64.is_nan (avg r) = false) rs ->
  exists i r,
    nth_error rs i = Some r
    /\ peak_row rs = inr r
    /\ peak_performance rs = inr (mkPeak (avg r) (peak_details r))
    /\ (forall r', In r' rs -> F64.leb (avg r') (avg r) = true)
    /\ (forall j r', (j < i)%nat -> nth_error rs j = Some r' ->
                     F64.ltb (avg r') (avg r) = true).
Proof.
  intros Hne Hnd Hnn.
  destruct (peak_row_first_maximum rs Hne Hnd Hnn)
    as [i [r [Hr [Hrow [Hmax Hfirst]]]]].
  exists i, r. split; [exact Hr|]. split; [exact Hrow|].
  split; [|split; [exact Hmax | exact Hfirst]].
  unfold peak_performance. rewrite Hrow. reflexivity.
Qed.

Lemma peak_performance_first_maximum_witness :
  rows example_frame <> []
  /\ NoDup (map index (rows example_frame))
  /\ Forall (fun r => F64.is_nan (avg r) = false) (rows example_frame)
  /\ exists i r,
       nth_error (rows example_frame) i = Some r
       /\ peak_performance (rows example_frame)
          = inr (mkPeak (avg r) (peak_details r))
       /\ (forall r', In r' (rows example_frame) ->
                      F64.leb (avg r') (avg r) = true).
Proof.
  assert (H1 : rows example_frame <> []) by discriminate.
  assert (H2 : NoDup (map index (rows example_frame))).
  { simpl. repeat constructor; simpl; intuition discriminate. }
  assert (H3 : Forall (fun r => F64.is_nan (avg r) = false) (rows example_frame)).
  { repeat constructor. }
  split; [exact H1|]. split; [exact H2|]. split; [exact H3|].
  destruct (peak_performance_first_maximum (rows example_frame) H1 H2 H3)
    as [i [r [Hr [_ [Hp [Hmax _]]]]]].
  exists i, r. auto.
Defined.

(** ** Overall growth *)

Lemma fold_min_spec (l : list Z) (a : Z) :
  let m := fold_left Z.min l a in
  (m = a \/ In m l) /\ m <= a /\ (forall x, In x l -> m <= x).
Proof.
  revert a. induction l as [|y l IH]; intros a; simpl.
  - split; [auto|]. split; [lia|]. intros x [].
  - destruct (IH (Z.min a y)) as [Hin [Hle Hall]]. split; [|split].
    + destruct Hin as [Heq|Hin]; [|auto].
      destruct (Z.min_spec a y) as [[_ E]|[_ E]]; rewrite E in Heq;
        [left | right; left]; congruence.
    + lia.
    + intros x [<-|Hx]; [lia | auto].
Qed.

Lemma fold_max_spec (l : list Z) (a : Z) :
  let m := fold_left Z.max l a in
  (m = a \/ In m l) /\ a <= m /\ (forall x, In x l -> x <= m).
Proof.
  revert a. induction l as [|y l IH]; intros a; simpl.
  - split; [auto|]. split; [lia|]. intros x [].
  - destruct (IH (Z.max a y)) as [Hin [Hle Hall]]. split; [|split].
    + destruct Hin as [Heq|Hin]; [|auto].
      destruct (Z.max_spec a y) as [[_ E]|[_ E]]; rewrite E in Heq;
        [right; left | left]; congruence.
    + lia.
    + intros x [<-|Hx]; [lia | auto].
Qed.

Lemma month_min_earliest (rs : list Row) :
  rs <> [] -> exists lo, month_min rs = Some lo /\ earliest_month rs lo.
Proof.
  destruct rs as [|r rs]; [congruence|]. intros _.
  exists (fold_left Z.min (map month rs) (month r)). split; [reflexivity|].
  destruct (fold_min_spec (map month rs) (month r)) as [Hin [Hle Hall]].
  split.
  - destruct Hin as [Heq|Hin].
    + exists r. split; [left; reflexivity | symmetry; exact Heq].
    + apply in_map_iff in Hin. destruct Hin as [r' [Hm Hr']].
      exists r'. split; [right; exact Hr' | exact Hm].
  - intros r' [<-|Hr']; [exact Hle|]. apply Hall, in_map, Hr'.
Qed.

Lemma month_max_latest (rs : list Row) :
  rs <> [] -> exists hi, month_max rs = Some hi /\ latest_month rs hi.
Proof.
  destruct rs as [|r rs]; [congruence|]. intros _.
  exists (fold_left Z.max (map month rs) (month r)). split; [reflexivity|].
  destruct (fold_max_spec (map month rs) (month r)) as [Hin [Hle Hall]].
  split.
  - destruct Hin as [Heq|Hin].
    + exists r. split; [left; reflexivity | symmetry; exact Heq].
    + apply in_map_iff in Hin. destruct Hin as [r' [Hm Hr']].
      exists r'. split; [right; exact Hr' | exact Hm].
  - intros r' [<-|Hr']; [exact Hle|]. apply Hall, in_map, Hr'.
Qed.



(** ** Per-category summary: the rows and their statistics *)

Lemma groupby_In (key : Row -> string) (rs : list Row) (k : string)
    (g : list Row) :
  In (k, g) (groupby key rs) ->
  In k (group_keys key rs) /\ g = filter (fun r => String.eqb (key r) k) rs.
Proof.
  unfold groupby. rewrite in_map_iff. intros [k' [Heq Hin]].
  inversion Heq; subst. auto.
Qed.

Lemma enumerate_In {A} (l : list A) (i : nat) (x : A) :
  In (i, x) (enumerate l) -> In x l.
Proof. unfold enumerate. apply in_combine_r. Qed.

Lemma pop_group_analysis_In (rs : list Row) (t : pop_group_row) :
  In t (pop_group_analysis rs) ->
  let vs := map avg (filter (fun r => String.eqb (pop_group r) (pg_label t)) rs) in
  In (pg_label t) (group_keys pop_group rs)
  /\ mean_avg t = series_mean vs /\ min_avg t = series_min vs
  /\ max_avg t = series_max vs /\ volatility t = series_std vs.
Proof.
  unfold pop_group_analysis. rewrite in_map_iff.
  intros [[i [k g]] [Heq Hin]]. subst t. simpl.
  apply enumerate_In, groupby_In in Hin. destruct Hin as [Hk ->]. auto.
Qed.

Lemma dropna_values_length (vs : list float) :
  (List.length (dropna_values vs) <= List.length vs)%nat.
Proof. apply filter_length_le. Qed.

(** The divisor of the variance is the number of observations minus one:
    on the two observations 2 and 4 the result is the square root of 2,
    where the population formula would give 1. *)
Lemma series_std_two_observations :
  series_std [F64.of_Z 2; F64.of_Z 4] = F64.sqrt (F64.of_Z 2).
Proof. vm_compute. reflexivity. Qed.



(** ** The PDF emitter *)

Lemma emit_run (o : op) (d : PDF) :
  execState (Report.emit o) d =
  mkPDF (pdf_w d) (l_margin d) (page d) (calls d ++ [o]).
Proof. reflexivity. Qed.

Lemma simple_table_empty (format_2f : float -> string) (df : table) (d : PDF) :
  t_rows df = [] ->
  execState (Report.simple_table format_2f df) d =
  mkPDF (pdf_w d) (l_margin d) (page d) (calls d ++ [Report.no_data_cell]).
Proof.
  intros Hrows. unfold Report.simple_table, table_empty. rewrite Hrows.
  destruct (t_columns df); reflexivity.
Qed.

(** C10.  A table with no row is drawn as one cell reading
    "No data available for this section." followed by a line break, and
    nothing else: no font change and no header row.  In the report, when
    the per-category table has no row, that cell is what stands between
    the sentence introducing the section and the space closing it; and
    likewise for the two state tables under their titles. *)
Theorem simple_table_no_rows (format_2f : float -> string) :
  let placeholder :=
    Cell (PyInt 0) 10 "No data available for this section." 0 1 "" false in
  (forall df d,
      t_rows df = [] ->
      execState (Report.simple_table format_2f df) d =
      mkPDF (pdf_w d) (l_margin d) (page d) (calls d ++ [placeholder]))
  /\ (forall ins d,
         insights_pop_group_table ins = [] ->
         calls (execState (Report.pop_group_section format_2f ins) d) =
         calls d
           ++ [ SetFont "Arial" "B" 12; SetFillColor 230 230 230;
                Cell (PyInt 0) 6 "Performance by POP Group" 0 1 "L" true;
                Ln (Some 4); SetFont "Arial" "" 10;
                MultiCell 0 5 "This section details the performance metrics for each population group, highlighting average performance and volatility.";
                Ln (Some 5); placeholder; Ln (Some 10) ])
  /\ (forall ins d,
         insights_top_5_states ins = [] ->
         insights_bottom_5_states ins = [] ->
         calls (execState (Report.state_section format_2f ins) d) =
         calls d
           ++ [ SetFont "Arial" "B" 12; SetFillColor 230 230 230;
                Cell (PyInt 0) 6 "Performance by State" 0 1 "L" true;
                Ln (Some 4); SetFont "Arial" "" 10;
                MultiCell 0 5 "The following tables rank states by their average `avg` to identify top performers and areas for potential improvement.";
                Ln (Some 5); SetFont "Arial" "B" 10;
                Cell (PyInt 0) 5 "Top 5 Performing States" 0 1 "" false;
                placeholder; Ln (Some 5); SetFont "Arial" "B" 10;
                Cell (PyInt 0) 5 "Bottom 5 Performing States" 0 1 "" false;
                placeholder; Ln (Some 5) ]).
Proof.
  intros placeholder. split; [|split].
  - intros df d Hrows. apply simple_table_empty, Hrows.
  - intros ins d Hpop. unfold Report.pop_group_section. rewrite Hpop.
    destruct d as [w m pg cs]. lazy -[app].
    repeat rewrite <- app_assoc. reflexivity.
  - intros ins d Htop Hbottom. unfold Report.state_section.
    rewrite Htop, Hbottom.
    destruct d as [w m pg cs]. lazy -[app].
    repeat rewrite <- app_assoc. reflexivity.
Qed.

Lemma simple_table_no_rows_witness :
  let df := mkTable ["POP Group"; "Mean Avg"; "Min Avg"; "Max Avg";
                     "Volatility (Std Dev)"] [] in
  let d := mkPDF (F64.of_Z 210) (F64.of_Z 10) 1 [] in
  t_rows df = []
  /\ calls (execState (Report.simple_table (fun _ => "") df) d)
     = [Cell (PyInt 0) 10 "No data available for this section." 0 1 "" false].
Proof.
  intros df d. split; [reflexivity|].
  destruct (simple_table_no_rows (fun _ => "")) as [Hempty _].
  rewrite (Hempty df d eq_refl). reflexivity.
Defined.

(** ** Category normalization *)

Lemma lstrip_spaces (ws s : string) :
  all_space ws = true -> Str.lstrip (ws ++ s) = Str.lstrip s.
Proof.
  induction ws as [|c ws IH]; simpl; [reflexivity|].
  intros H. apply andb_true_iff in H. destruct H as [Hc Hws].
  rewrite Hc. apply IH, Hws.
Qed.

Lemma rstrip_all_space (ws : string) :
  all_space ws = true -> Str.rstrip ws = "".
Proof.
  induction ws as [|c ws IH]; simpl; [reflexivity|].
  intros H. apply andb_true_iff in H. destruct H as [Hc Hws].
  rewrite (IH Hws), Hc. reflexivity.
Qed.

Lemma rstrip_spaces (s ws : string) :
  all_space ws = true -> Str.rstrip (s ++ ws) = Str.rstrip s.
Proof.
  intros H. induction s as [|c s IH]; simpl.
  - apply rstrip_all_space, H.
  - rewrite IH. reflexivity.
Qed.

Lemma lower_char_not_space (c : ascii) :
  Str.is_space (Str.lower_char c) = false -> Str.is_space c = false.
Proof.
  destruct c as [[] [] [] [] [] [] [] []]; vm_compute; intros H; congruence.
Qed.

(** A case variant of ["s - urban"] begins and ends with a letter, so
    stripping leaves it whole. *)
Lemma strip_s_urban_variant (v : string) :
  Str.lower v = "s - urban" -> Str.lstrip v = v /\ Str.rstrip v = v.
Proof.
  intros H.
  destruct v as [|c1 [|c2 [|c3 [|c4 [|c5 [|c6 [|c7 [|c8 [|c9 [|c10 v]]]]]]]]]];
    try discriminate H.
  unfold Str.lower in H. simpl in H.
  injection H as H1 H2 H3 H4 H5 H6 H7 H8 H9.
  assert (S1 : Str.is_space c1 = false)
    by (apply lower_char_not_space; rewrite H1; reflexivity).
  assert (S9 : Str.is_space c9 = false)
    by (apply lower_char_not_space; rewrite H9; reflexivity).
  simpl. rewrite S1, S9. split; reflexivity.
Qed.

(** C7.  A label that is ["s - urban"] up to letter case, with any
    whitespace before and after it, is normalized to ["s-urban"]; any label
    that is not such a variant is normalized to its stripped, lowercased
    form; and the three labels ["S - Urban"], ["s-urban"] and
    [" s - urban "] all give ["s-urban"]. *)
Theorem normalize_pop_group_canonical :
  (forall ws1 v ws2,
      all_space ws1 = true -> all_space ws2 = true ->
      Str.lower v = "s - urban" ->
      normalize_pop_group (ws1 ++ v ++ ws2) = "s-urban")
  /\ (forall label,
         Str.lower (Str.strip label) <> "s - urban" ->
         normalize_pop_group label = Str.lower (Str.strip label))
  /\ normalize_pop_group "S - Urban" = "s-urban"
  /\ normalize_pop_group "s-urban" = "s-urban"
  /\ normalize_pop_group " s - urban " = "s-urban".
Proof.
  split; [|split; [|repeat split]].
  - intros ws1 v ws2 H1 H2 Hv.
    destruct (strip_s_urban_variant v Hv) as [Hl Hr].
    assert (Hnonempty : exists c v', v = String c v' /\ Str.is_space c = false).
    { destruct v as [|c v']; [discriminate Hv|].
      exists c, v'. split; [reflexivity|].
      simpl in Hl. destruct (Str.is_space c) eqn:E; [|reflexivity].
      exfalso. clear - Hl.
      assert (Hlen : forall s, (String.length (Str.lstrip s) <= String.length s)%nat).
      { induction s as [|a s IH]; simpl; [lia|].
        destruct (Str.is_space a); simpl; lia. }
      specialize (Hlen v'). rewrite Hl in Hlen. simpl in Hlen. lia. }
    destruct Hnonempty as [c [v' [Hveq Hc]]].
    unfold normalize_pop_group, Str.strip.
    rewrite lstrip_spaces by exact H1.
    replace (Str.lstrip (v ++ ws2)) with (v ++ ws2)%string
      by (rewrite Hveq; simpl; rewrite Hc; reflexivity).
    rewrite rstrip_spaces by exact H2.
    rewrite Hr, Hv. reflexivity.
  - intros label Hne. unfold normalize_pop_group, replace_s_urban.
    destruct (String.eqb_spec (Str.lower (Str.strip label)) "s - urban");
      [contradiction | reflexivity].
Qed.

(** ** The frame after the analysis *)

(** C9, as stated, fails: the table the loader builds from the example
    rows has four columns before the analysis and five after it. *)
Lemma analyze_data_adds_column :
  get_data parse_iso_date parse_digits argsort_stable fetched_example
    = inr example_frame
  /\ (exists ins, fst (analyze_data argsort_stable example_frame) = inr ins)
  /\ columns example_frame = ["state"; "month"; "pop_group"; "avg"]
  /\ columns (snd (analyze_data argsort_stable example_frame))
     = ["state"; "month"; "pop_group"; "avg"; "year"]
  /\ ~ analyze_data_leaves_frame.
Proof.
  split; [vm_compute; reflexivity|].
  assert (H : exists ins, fst (analyze_data argsort_stable example_frame) = inr ins).
  { eexists. vm_compute. reflexivity. }
  split; [exact H|]. split; [reflexivity|]. split; [vm_compute; reflexivity|].
  intros Hclaim. destruct H as [ins Hins].
  specialize (Hclaim argsort_stable example_frame ins Hins).
  apply (f_equal year) in Hclaim. vm_compute in Hclaim. discriminate.
Qed.

(** C9, amended.  When [analyze_data] returns, the frame passed in holds
    the same rows in the same order, with the same index, state, month,
    pop_group and avg values, and has one more column, [year], holding the
    year of each row's month. *)
Theorem analyze_data_frame_after (qs : argsort_t) (df : DataFrame)
    (ins : insights) :
  fst (analyze_data qs df) = inr ins ->
  rows (snd (analyze_data qs df)) = rows df
  /\ year (snd (analyze_data qs df))
     = Some (map (fun r => Timestamp.year (month r)) (rows df))
  /\ columns (snd (analyze_data qs df))
     = ["state"; "month"; "pop_group"; "avg"; "year"].
Proof.
  unfold analyze_data.
  destruct (analyze_summary (rows df)) as [e|[range pk]]; simpl.
  - discriminate.
  - intros _. repeat split.
Qed.

Lemma analyze_data_frame_after_witness :
  (exists ins, fst (analyze_data argsort_stable example_frame) = inr ins)
  /\ rows (snd (analyze_data argsort_stable example_frame)) = rows example_frame
  /\ year (snd (analyze_data argsort_stable example_frame)) = Some [2024; 2024; 2024].
Proof.
  assert (H : exists ins, fst (analyze_data argsort_stable example_frame) = inr ins).
  { eexists. vm_compute. reflexivity. }
  split; [exact H|]. destruct H as [ins Hins].
  destruct (analyze_data_frame_after argsort_stable example_frame ins Hins)
    as [Hrows [Hyear _]].
  split; [exact Hrows | exact Hyear].
Defined.

(** ** Loading: the month column *)

Section LoaderFacts.

Variable parse_datetime : string -> option Timestamp.t.
Variable parse_number : string -> option float.
Variable qs : argsort_t.

Lemma to_datetime_inr (col : list month_cell) (vs : list (option Timestamp.t)) :
  to_datetime parse_datetime col = inr vs ->
  Forall2 (fun c v => to_datetime_cell parse_datetime c = inr v) col vs.
Proof.
  revert vs. induction col as [|c col IH]; simpl; intros vs H.
  - inversion H. constructor.
  - unfold bind in H.
    destruct (to_datetime_cell parse_datetime c) as [e|v] eqn:Ec; [discriminate|].
    destruct (to_datetime parse_datetime col) as [e|vs'] eqn:Ecol; [discriminate|].
    inversion H; subst. constructor; auto.
Qed.

Lemma to_datetime_raises (col : list month_cell) (s : string) :
  In (MonthText s) col -> parse_datetime s = None ->
  exists e, to_datetime parse_datetime col = inl e.
Proof.
  induction col as [|c col IH]; simpl; intros Hin Hs; [contradiction|].
  unfold bind.
  destruct (to_datetime_cell parse_datetime c) as [e|v] eqn:Ec; [eauto|].
  destruct Hin as [->|Hin].
  - simpl in Ec. rewrite Hs in Ec. discriminate.
  - destruct (IH Hin Hs) as [e He]. rewrite He. eauto.
Qed.

Lemma to_datetime_returns (col : list month_cell) :
  (forall s, In (MonthText s) col -> parse_datetime s <> None) ->
  exists vs, to_datetime parse_datetime col = inr vs.
Proof.
  induction col as [|c col IH]; simpl; intros H; [eauto|].
  destruct IH as [vs Hvs]; [intros s Hs; apply H; auto|].
  rewrite Hvs. unfold bind.
  destruct c as [|ts|s]; simpl; eauto.
  destruct (parse_datetime s) eqn:E; [eauto|].
  exfalso. apply (H s); auto.
Qed.

Lemma zip_columns_In ix st mo pg av (c : converted_row) :
  In c (zip_columns ix st mo pg av) ->
  exists i,
    nth_error ix i = Some (c_index c) /\ nth_error mo i = Some (c_month c).
Proof.
  revert st mo pg av.
  induction ix as [|i0 ix IH]; intros st mo pg av Hin; [contradiction|].
  destruct st as [|s st], mo as [|m mo], pg as [|p pg], av as [|a av];
    try contradiction.
  simpl in Hin. destruct Hin as [<-|Hin].
  - exists 0%nat. split; reflexivity.
  - destruct (IH _ _ _ _ Hin) as [i [H1 H2]]. exists (S i). auto.
Qed.

Lemma dropna_In (frame : list converted_row) (r : Row) :
  In r (dropna frame) ->
  exists c, In c frame /\ c_index c = index r /\ c_month c = Some (month r)
            /\ c_state c = Some (state r) /\ c_pop_group c = Some (pop_group r)
            /\ c_avg c = avg r /\ F64.is_nan (avg r) = false.
Proof.
  unfold dropna. rewrite in_flat_map. intros [c [Hc Hr]].
  exists c. split; [exact Hc|]. unfold dropna_row in Hr.
  destruct (c_state c), (c_month c), (c_pop_group c); try contradiction.
  destruct (F64.is_nan (c_avg c)) eqn:E; [contradiction|].
  destruct Hr as [<-|[]]. simpl. auto 10.
Qed.

Lemma Forall2_nth_error_right {A B} (P : A -> B -> Prop) (l1 : list A)
    (l2 : list B) :
  Forall2 P l1 l2 ->
  forall i y, nth_error l2 i = Some y ->
              exists x, nth_error l1 i = Some x /\ P x y.
Proof.
  induction 1 as [|x y l1 l2 Hxy _ IH]; intros i z Hi.
  - destruct i; discriminate.
  - destruct i as [|i]; simpl in Hi.
    + inversion Hi; subst. exists x. auto.
    + apply IH, Hi.
Qed.

Lemma get_data_row_month (fetched : list raw_row) (df : DataFrame) (r : Row) :
  get_data parse_datetime parse_number qs fetched = inr df ->
  In r (rows df) ->
  exists raw,
    nth_error fetched (index r) = Some raw
    /\ to_datetime_cell parse_datetime (raw_month raw) = inr (Some (month r)).
Proof.
  unfold get_data, convert, bind.
  destruct (to_datetime parse_datetime (map raw_month fetched)) as [e|mo] eqn:E;
    [discriminate|].
  intros H Hin. inversion H; subst df; clear H. simpl in Hin.
  apply take_In, dropna_In in Hin.
  destruct Hin as [c [Hc [Hix [Hmo _]]]].
  apply zip_columns_In in Hc. destruct Hc as [i [Hi Hm]].
  assert (i = index r).
  { rewrite <- Hix. apply nth_error_In in Hi as Hin.
    rewrite nth_error_seq in Hi.
    destruct (i <? List.length fetched)%nat; inversion Hi. reflexivity. }
  subst i. rewrite Hmo in Hm.
  apply to_datetime_inr in E.
  destruct (Forall2_nth_error_right _ _ _ E _ _ Hm) as [cell [Hcell Hconv]].
  rewrite nth_error_map in Hcell.
  destruct (nth_error fetched (index r)) as [raw|]; [|discriminate].
  inversion Hcell; subst. exists raw. auto.
Qed.

End LoaderFacts.




(** ** Loading: the final sort *)




(** ** The table the loader builds *)

Lemma zip_columns_index_NoDup ix st mo pg av :
  NoDup ix -> NoDup (map c_index (zip_columns ix st mo pg av)).
Proof.
  intros Hnd. revert st mo pg av.
  induction Hnd as [|i ix Hi Hnd IH]; intros st mo pg av; [constructor|].
  destruct st as [|s st], mo as [|m mo], pg as [|p pg], av as [|a av];
    try constructor.
  - intros Hin. apply in_map_iff in Hin. destruct Hin as [c [Hc Hin]].
    apply zip_columns_In in Hin. destruct Hin as [k [Hk _]].
    apply nth_error_In in Hk. simpl in Hc. congruence.
  - apply IH.
Qed.

Lemma dropna_index_NoDup (frame : list converted_row) :
  NoDup (map c_index frame) -> NoDup (map index (dropna frame)).
Proof.
  induction frame as [|c frame IH]; simpl; intros Hnd; [constructor|].
  inversion Hnd as [|? ? Hnotin Hnd']; subst.
  unfold dropna_row.
  destruct (c_state c), (c_month c), (c_pop_group c); simpl; auto.
  destruct (F64.is_nan (c_avg c)); simpl; auto.
  constructor; [|auto].
  intros Hin. apply in_map_iff in Hin. destruct Hin as [r [Hr Hin]].
  apply dropna_In in Hin. destruct Hin as [c' [Hc' [Hix _]]].
  apply Hnotin. apply in_map_iff. exists c'. split; [congruence | exact Hc'].
Qed.

(** What the aggregator may rely on: a table returned by the loader has
    distinct index labels, no missing [avg], months in non-decreasing order
    and the four columns of the query. *)
Lemma get_data_canonical
    (parse_datetime : string -> option Timestamp.t)
    (parse_number : string -> option float) (qs : argsort_t)
    (fetched : list raw_row) (df : DataFrame) :
  sorting_routine qs ->
  get_data parse_datetime parse_number qs fetched = inr df ->
  NoDup (map index (rows df))
  /\ Forall (fun r => F64.is_nan (avg r) = false) (rows df)
  /\ StronglySorted (fun a b => month a <= month b) (rows df)
  /\ columns df = ["state"; "month"; "pop_group"; "avg"].
Proof.
  intros Hqs. unfold get_data, bind.
  destruct (convert parse_datetime parse_number fetched) as [e|frame] eqn:Ec;
    [discriminate|].
  intros H. inversion H; subst df; clear H. simpl rows.
  pose proof (sort_values_by_month_perm qs Hqs (dropna frame)) as Hperm.
  split; [|split; [|split]].
  - eapply Permutation_NoDup;
      [apply Permutation_map; symmetry; exact Hperm|].
    apply dropna_index_NoDup.
    unfold convert, bind in Ec.
    destruct (to_datetime parse_datetime (map raw_month fetched)); [discriminate|].
    inversion Ec; subst frame.
    apply zip_columns_index_NoDup, seq_NoDup.
  - apply Forall_forall. intros r Hr.
    apply take_In, dropna_In in Hr. destruct Hr as [c [_ H]]. apply H.
  - apply sort_values_by_month_sorted, Hqs.
  - reflexivity.
Qed.

(** ** Per-category summary: grouping and order *)

Lemma group_keys_NoDup (key : Row -> string) (rs : list Row) :
  NoDup (group_keys key rs).
Proof.
  unfold group_keys.
  eapply Permutation_NoDup; [symmetry; apply insertion_sort_perm|].
  apply NoDup_nodup.
Qed.

Lemma group_keys_In (key : Row -> string) (rs : list Row) (k : string) :
  In k (group_keys key rs) <-> In k (map key rs).
Proof.
  unfold group_keys. split; intros H.
  - apply (nodup_In string_dec).
    eapply Permutation_in; [apply insertion_sort_perm | exact H].
  - eapply Permutation_in; [symmetry; apply insertion_sort_perm|].
    apply (nodup_In string_dec). exact H.
Qed.

Lemma map_enumerate {A B} (f : A -> B) (l : list A) :
  map (fun p => f (snd p)) (enumerate l) = map f l.
Proof. rewrite <- (map_map snd f), enumerate_snd. reflexivity. Qed.

Lemma pop_group_analysis_labels (rs : list Row) :
  map pg_label (pop_group_analysis rs) = group_keys pop_group rs.
Proof.
  unfold pop_group_analysis. rewrite map_map.
  transitivity (map (fun p => fst (snd p)) (enumerate (groupby pop_group rs))).
  - apply map_ext. intros [i [k g]]. reflexivity.
  - rewrite (map_enumerate fst). unfold groupby. rewrite map_map. simpl.
    apply map_id.
Qed.

Lemma StronglySorted_on {A} (P : A -> Prop) (R R' : A -> A -> Prop)
    (l : list A) :
  Forall P l -> (forall a b, P a -> P b -> R a b -> R' a b) ->
  StronglySorted R l -> StronglySorted R' l.
Proof.
  intros HP Himp. induction 1 as [|x l Hl IH Hx]; constructor.
  - apply IH. inversion HP; assumption.
  - inversion HP as [|? ? Px Pl]; subst.
    rewrite Forall_forall in *. intros y Hy. apply Himp; auto.
Qed.

Section SortDescending.

Variable qs : argsort_t.
Hypothesis qs_routine : sorting_routine qs.

Lemma sort_descending_perm {A} (key : A -> float) (l : list A) :
  Permutation
    (take (nargsort qs F64.sort_leb F64.is_nan (map key l) false) l) l.
Proof.
  apply take_perm. rewrite <- (length_map key).
  apply nargsort_perm. exact qs_routine.
Qed.

Lemma sort_descending_sorted {A} (key : A -> float) (l : list A) :
  StronglySorted (fun a b => descending (key a) (key b))
    (take (nargsort qs F64.sort_leb F64.is_nan (map key l) false) l).
Proof.
  apply StronglySorted_map with (f := key) (R := descending).
  rewrite take_map, take_nargsort.
  set (V := filter (fun x => negb (F64.is_nan x)) (map key l)).
  assert (HV : Forall (fun x => F64.is_nan x = false) V).
  { apply Forall_forall. intros x Hx. apply filter_In in Hx.
    destruct Hx as [_ Hx]. apply negb_true_iff in Hx. exact Hx. }
  apply StronglySorted_app.
  - assert (Hs : StronglySorted (fun a b => F64.sort_leb a b = true)
                   (take (qs float F64.sort_leb (rev V)) (rev V))).
    { apply (argsort_sorted qs qs_routine).
      - exact F64Facts.sort_leb_total.
      - exact F64Facts.sort_leb_trans. }
    apply StronglySorted_rev in Hs.
    eapply (StronglySorted_on (fun x => F64.is_nan x = false)); [| |exact Hs].
    + apply Forall_rev. apply Forall_forall. intros x Hx.
      apply take_In, in_rev in Hx.
      rewrite Forall_forall in HV. apply HV, Hx.
    + intros a b Ha Hb H. right.
      rewrite <- (F64Facts.sort_leb_leb b a Ha). exact H.
  - clear. induction (map key l) as [|x vs IH]; simpl; [constructor|].
    destruct (F64.is_nan x) eqn:E; [|exact IH].
    constructor; [exact IH|].
    apply Forall_forall. intros y Hy. apply filter_In in Hy. left. apply Hy.
  - intros a b _ Hb. apply filter_In in Hb. left. apply Hb.
Qed.

End SortDescending.




(** ** Most improved state *)

Lemma valid_growth_rows_In (rs : list Row) (r : Row) :
  In r (valid_growth_rows rs) <->
  In r rs /\ (2 <= state_count rs (state r))%nat.
Proof.
  unfold valid_growth_rows. rewrite filter_In, Nat.leb_le. reflexivity.
Qed.

Lemma valid_growth_rows_nil (rs : list Row) :
  (forall s, (state_count rs s < 2)%nat) -> valid_growth_rows rs = [].
Proof.
  intros H. apply filter_none. intros r _. apply Nat.leb_gt, H.
Qed.

Lemma state_count_In (rs : list Row) (s : string) :
  (1 <= state_count rs s)%nat -> exists r, In r rs /\ state r = s.
Proof.
  unfold state_count. intros H.
  destruct (filter (fun r => String.eqb (state r) s) rs) as [|r l] eqn:E;
    [simpl in H; lia|].
  assert (Hin : In r (filter (fun r => String.eqb (state r) s) rs))
    by (rewrite E; left; reflexivity).
  apply filter_In in Hin. destruct Hin as [Hin Hs].
  exists r. split; [exact Hin | apply String.eqb_eq, Hs].
Qed.

Lemma filter_filter_implied {A} (f g : A -> bool) (l : list A) :
  (forall x, In x l -> f x = true -> g x = true) ->
  filter f (filter g l) = filter f l.
Proof.
  induction l as [|x l IH]; intros H; simpl; [reflexivity|].
  assert (IH' : filter f (filter g l) = filter f l)
    by (apply IH; intros y Hy; apply H; right; exact Hy).
  destruct (g x) eqn:Eg; simpl.
  - rewrite IH'. reflexivity.
  - destruct (f x) eqn:Ef; [|exact IH'].
    rewrite (H x (or_introl eq_refl) Ef) in Eg. discriminate.
Qed.

Lemma valid_state_rows (rs : list Row) (s : string) :
  (2 <= state_count rs s)%nat ->
  filter (fun r => String.eqb (state r) s) (valid_growth_rows rs)
  = state_rows rs s.
Proof.
  intros H. unfold valid_growth_rows, state_rows.
  apply filter_filter_implied. intros r _ Hr.
  apply String.eqb_eq in Hr. subst s. apply Nat.leb_le, H.
Qed.

(** The groups of [groupby('state')] over the valid rows are the states
    counted at least twice, each with all its rows. *)
Lemma valid_groups_In (rs : list Row) (k : string) (x : list Row) :
  In (k, x) (groupby state (valid_growth_rows rs)) <->
  (2 <= state_count rs k)%nat /\ x = state_rows rs k.
Proof.
  split.
  - intros H. apply groupby_In in H. destruct H as [Hk ->].
    apply group_keys_In, in_map_iff in Hk. destruct Hk as [r [Hs Hr]].
    apply valid_growth_rows_In in Hr. destruct Hr as [_ Hc]. subst k.
    split; [exact Hc | apply valid_state_rows, Hc].
  - intros [Hc ->]. unfold groupby. apply in_map_iff. exists k.
    split; [rewrite valid_state_rows by exact Hc; reflexivity|].
    apply group_keys_In, in_map_iff.
    destruct (state_count_In rs k) as [r [Hr Hs]]; [lia|].
    exists r. split; [exact Hs|]. apply valid_growth_rows_In.
    rewrite Hs. auto.
Qed.

Lemma last_map {A B} (f : A -> B) (l : list A) (d : A) :
  last (map f l) (f d) = f (last l d).
Proof.
  induction l as [|x l IH]; simpl; [reflexivity|].
  destruct l; [reflexivity | exact IH].
Qed.

Lemma last_default {A} (l : list A) (x a b : A) :
  last (x :: l) a = last (x :: l) b.
Proof.
  revert x. induction l as [|y l IH]; intros x; [reflexivity|].
  change (last (y :: l) a = last (y :: l) b). apply IH.
Qed.

Lemma last_cons_shift {A} (l : list A) (b a : A) :
  last (b :: l) a = last l b.
Proof.
  destruct l as [|c l]; [reflexivity|].
  change (last (c :: l) a = last (c :: l) b). apply last_default.
Qed.

Lemma last_In {A} (l : list A) (d : A) : In (last l d) (d :: l).
Proof.
  revert d. induction l as [|y l IH]; intros d; [left; reflexivity|].
  rewrite last_cons_shift. right. apply IH.
Qed.

Lemma sorted_last_latest (l : list Row) (a : Row) :
  StronglySorted (fun a b => month a <= month b) (a :: l) ->
  forall y, In y (a :: l) -> month y <= month (last l a).
Proof.
  revert a. induction l as [|b l IH]; intros a Hs y Hy.
  - destruct Hy as [<-|[]]. simpl. lia.
  - inversion Hs as [|? ? Hl Ha]; subst.
    rewrite last_cons_shift.
    destruct Hy as [<-|Hy].
    + inversion Ha; subst.
      specialize (IH b Hl b (or_introl eq_refl)). lia.
    + apply IH; assumption.
Qed.

Lemma enumerate_In_nth {A} (l : list A) (j : nat) (x : A) :
  nth_error l j = Some x -> In (j, x) (enumerate l).
Proof.
  unfold enumerate. intros H.
  assert (G : forall start, In ((start + j)%nat, x)
                               (combine (seq start (List.length l)) l)).
  { revert j H. induction l as [|y l IH]; intros j H start.
    - destruct j; discriminate.
    - destruct j as [|j]; simpl in H.
      + inversion H; subst. left. rewrite Nat.add_0_r. reflexivity.
      + right. replace (start + S j)%nat with (S start + j)%nat by lia.
        apply IH, H. }
  exact (G 0%nat).
Qed.

Section MostImproved.

Variable qs : argsort_t.
Hypothesis qs_routine : sorting_routine qs.

(** The growth of a group is taken between a row of its earliest month
    and a row of its latest month. *)
Lemma group_growth_spec (x : list Row) :
  x <> [] ->
  exists r0 r1,
    In r0 x /\ In r1 x
    /\ (forall r, In r x -> month r0 <= month r /\ month r <= month r1)
    /\ group_growth qs x = inr (growth_pct (avg r0) (avg r1)).
Proof.
  intros Hne. unfold group_growth.
  pose proof (sort_values_by_month_perm qs qs_routine x) as Hperm.
  pose proof (sort_values_by_month_sorted qs qs_routine x) as Hsorted.
  destruct (sort_values_by_month qs x) as [|r0 tl] eqn:E.
  - apply Permutation_nil in Hperm. congruence.
  - exists r0, (last tl r0). split; [|split; [|split]].
    + eapply Permutation_in; [exact Hperm | left; reflexivity].
    + eapply Permutation_in; [exact Hperm | apply last_In].
    + intros r Hr.
      assert (Hin : In r (r0 :: tl))
        by (eapply Permutation_in; [symmetry; exact Hperm | exact Hr]).
      split.
      * inversion Hsorted as [|? ? _ Hall]; subst.
        destruct Hin as [<-|Hin]; [lia|].
        rewrite Forall_forall in Hall. apply Hall, Hin.
      * apply sorted_last_latest; assumption.
    + simpl. rewrite last_map. reflexivity.
Qed.

Lemma apply_growth_returns (groups : list (string * list Row)) :
  (forall k x, In (k, x) groups -> x <> []) ->
  exists sg,
    apply_growth qs groups = inr sg
    /\ Forall2 (fun kx kg => fst kx = fst kg
                             /\ group_growth qs (snd kx) = inr (snd kg))
               groups sg.
Proof.
  induction groups as [|[k x] groups IH]; intros H.
  - exists []. split; [reflexivity | constructor].
  - destruct IH as [sg [Hsg Hall]];
      [intros k' x' Hin; apply (H k' x'); right; exact Hin|].
    destruct (group_growth_spec x) as [r0 [r1 [_ [_ [_ Hg]]]]];
      [apply (H k x); left; reflexivity|].
    exists ((k, growth_pct (avg r0) (avg r1)) :: sg).
    simpl. rewrite Hg, Hsg. simpl. split; [reflexivity|].
    constructor; [split; [reflexivity | exact Hg] | exact Hall].
Qed.

End MostImproved.

Section SelectLargest.

Variable qs : argsort_t.
Hypothesis qs_routine : sorting_routine qs.

(** [nlargest(1)] returns one position, and no value of the series is
    strictly greater than the value it holds. *)
Lemma select_largest_one (vals : list float) :
  vals <> [] ->
  exists i v,
    select_n qs true 1 vals = [i]
    /\ nth_error vals i = Some v
    /\ (forall w, In w vals -> F64.ltb v w = false).
Proof.
  intros Hne. unfold select_n. simpl Nat.eqb. cbv iota.
  destruct (Nat.leb_spec (List.length vals) 1) as [Hlen|Hlen].
  - destruct vals as [|v [|v' vals]]; [congruence | | simpl in Hlen; lia].
    pose proof (nargsort_perm qs F64.sort_leb F64.is_nan qs_routine [v]
                  (negb true)) as Hperm.
    simpl in Hperm. apply Permutation_sym, Permutation_length_1_inv in Hperm.
    change (negb true) with false. rewrite Hperm.
    exists 0%nat, v. split; [reflexivity|].
    split; [reflexivity|].
    intros w [<-|[]]. apply F64Facts.ltb_irrefl.
  - set (E := enumerate vals).
    remember (filter (fun p => negb (F64.is_nan (snd p))) E) as dropped eqn:Ed.
    remember (filter (fun p => F64.is_nan (snd p)) E) as nans eqn:En.
    set (before := fun a b : nat * float => F64.sort_leb (snd a) (snd b)).
    assert (Hpos : forall p, In p E -> nth_error vals (fst p) = Some (snd p)).
    { pose proof (enumerate_positioned vals) as H.
      rewrite Forall_forall in H. exact H. }
    assert (Hsplit : Permutation (dropped ++ nans) E).
    { subst dropped nans.
      apply (filter_split_perm (fun p => F64.is_nan (snd p)) E). }
    destruct dropped as [|d0 dropped'].
    + (* every value is missing *)
      simpl in Hsplit. simpl.
      destruct nans as [|p nans'].
      * apply Permutation_nil in Hsplit.
        apply (f_equal (@List.length _)) in Hsplit. unfold E in Hsplit.
        rewrite enumerate_length in Hsplit. simpl in Hsplit. lia.
      * assert (Hp : In p (p :: nans')) by (left; reflexivity).
        rewrite En in Hp. apply filter_In in Hp. destruct Hp as [HpE Hpn].
        exists (fst p), (snd p). split; [reflexivity|].
        split; [apply Hpos, HpE|].
        intros w _. apply F64Facts.ltb_nan_l, Hpn.
    + (* some value is present: the head of the stable sort *)
      set (arr := map (fun p : nat * float => (fst p, F64.neg (snd p)))
                      (d0 :: dropped')).
      assert (Hperm : Permutation (insertion_sort before arr) arr)
        by apply insertion_sort_perm.
      assert (Hsorted : StronglySorted (fun a b => before a b = true)
                          (insertion_sort before arr)).
      { apply insertion_sort_sorted with (le := before).
        - intros a b c. apply F64Facts.sort_leb_trans.
        - auto.
        - intros a b H. unfold before in *.
          destruct (F64Facts.sort_leb_total (snd a) (snd b)); congruence. }
      destruct (insertion_sort before arr) as [|h inds] eqn:Ei.
      * apply Permutation_nil in Hperm. unfold arr in Hperm. discriminate.
      * assert (Hh : In h arr)
          by (eapply Permutation_in; [exact Hperm | left; reflexivity]).
        unfold arr in Hh. apply in_map_iff in Hh.
        destruct Hh as [p [Hhp Hp]].
        assert (HpE : In p E /\ F64.is_nan (snd p) = false).
        { rewrite Ed in Hp. apply filter_In in Hp. destruct Hp as [H1 H2].
          apply negb_true_iff in H2. auto. }
        destruct HpE as [HpE Hpn].
        exists (fst p), (snd p). split; [subst h; reflexivity|].
        split; [apply Hpos, HpE|].
        intros w Hw.
        destruct (F64.is_nan w) eqn:Ewn; [apply F64Facts.ltb_nan_r, Ewn|].
        destruct (In_nth_error _ _ Hw) as [j Hj].
        apply enumerate_In_nth in Hj. fold E in Hj.
        assert (Hjd : In (j, w) (d0 :: dropped')).
        { rewrite Ed. apply filter_In. split; [exact Hj|].
          simpl. rewrite Ewn. reflexivity. }
        assert (Hja : In (j, F64.neg w) (h :: inds)).
        { eapply Permutation_in; [symmetry; exact Hperm|].
          unfold arr. apply in_map_iff. exists (j, w). auto. }
        assert (Hle : F64.sort_leb (snd h) (F64.neg w) = true).
        { destruct Hja as [Heq|Hja];
            [rewrite Heq; apply F64Facts.sort_leb_refl|].
          inversion Hsorted as [|? ? _ Hall]; subst.
          rewrite Forall_forall in Hall. apply (Hall _ Hja). }
        rewrite <- Hhp in Hle. simpl in Hle.
        rewrite F64Facts.sort_leb_leb in Hle
          by (rewrite F64Facts.is_nan_neg; exact Ewn).
        rewrite F64Facts.leb_neg in Hle.
        apply F64Facts.leb_not_ltb. exact Hle.
Qed.

End SelectLargest.

Lemma Forall2_In_left {A B} (P : A -> B -> Prop) (l1 : list A) (l2 : list B) :
  Forall2 P l1 l2 ->
  forall x, In x l1 -> exists y, In y l2 /\ P x y.
Proof.
  induction 1 as [|a b l1 l2 Hab _ IH]; intros x Hx; [contradiction|].
  destruct Hx as [<-|Hx].
  - exists b. split; [left; reflexivity | exact Hab].
  - destruct (IH x Hx) as [y [Hy Hxy]]. exists y. split; [right|]; assumption.
Qed.

Section MostImprovedState.

Variable qs : argsort_t.
Hypothesis qs_routine : sorting_routine qs.

Lemma state_rows_length (rs : list Row) (s : string) :
  List.length (state_rows rs s) = state_count rs s.
Proof. reflexivity. Qed.

Lemma group_growth_of_state (rs : list Row) (s : string) :
  (1 <= state_count rs s)%nat ->
  exists g,
    group_growth qs (state_rows rs s) = inr g /\ growth_of_state rs s g.
Proof.
  intros Hc.
  destruct (group_growth_spec qs qs_routine (state_rows rs s))
    as [r0 [r1 [H0 [H1 [Hb Hg]]]]].
  - intros E. rewrite <- state_rows_length, E in Hc. simpl in Hc. lia.
  - exists (growth_pct (avg r0) (avg r1)). split; [exact Hg|].
    unfold state_rows in H0, H1. apply filter_In in H0, H1.
    destruct H0 as [H0 S0], H1 as [H1 S1].
    apply String.eqb_eq in S0, S1.
    exists r0, r1. repeat split; auto.
    + apply Hb. apply filter_In. split; [assumption|].
      apply String.eqb_eq. assumption.
    + apply Hb. apply filter_In. split; [assumption|].
      apply String.eqb_eq. assumption.
Qed.

Lemma most_improved_state_selected (rs : list Row) :
  valid_growth_rows rs <> [] ->
  exists s g,
    most_improved_state qs rs = inr (mkMostImproved s (PyFloat g))
    /\ (2 <= state_count rs s)%nat
    /\ group_growth qs (state_rows rs s) = inr g
    /\ (forall s' g',
          (2 <= state_count rs s')%nat ->
          group_growth qs (state_rows rs s') = inr g' ->
          F64.ltb g g' = false).
Proof.
  intros Hvalid.
  set (groups := groupby state (valid_growth_rows rs)).
  destruct (apply_growth_returns qs qs_routine groups) as [sg [Hsg Hall]].
  { intros k x Hin. apply valid_groups_In in Hin. destruct Hin as [Hc ->].
    intros E. rewrite <- state_rows_length, E in Hc. simpl in Hc. lia. }
  assert (Hsgne : map snd sg <> []).
  { destruct (valid_growth_rows rs) as [|r vr] eqn:Ev; [congruence|].
    assert (Hr : In r (valid_growth_rows rs)) by (rewrite Ev; left; reflexivity).
    apply valid_growth_rows_In in Hr. destruct Hr as [_ Hc].
    assert (Hg : In (state r, state_rows rs (state r)) groups).
    { unfold groups. rewrite <- Ev. apply valid_groups_In. auto. }
    destruct (Forall2_In_left _ _ _ Hall _ Hg) as [y [Hy _]].
    destruct sg; [contradiction | discriminate]. }
  destruct (select_largest_one qs qs_routine (map snd sg) Hsgne)
    as [i [v [Hsel [Hi Hmax]]]].
  rewrite nth_error_map in Hi.
  destruct (nth_error sg i) as [[s g]|] eqn:Esg; [|discriminate].
  simpl in Hi. inversion Hi; subst v.
  destruct (Forall2_nth_error_right _ _ _ Hall _ _ Esg)
    as [[k x] [Hkx [Hk Hgx]]].
  simpl in Hk, Hgx. subst k.
  apply nth_error_In, valid_groups_In in Hkx. destruct Hkx as [Hc ->].
  exists s, g. split; [|split; [exact Hc | split; [exact Hgx|]]].
  - unfold most_improved_state, state_growth. fold groups.
    destruct (valid_growth_rows rs) as [|r vr]; [congruence|].
    rewrite Hsg. unfold bind. rewrite Hsel. simpl. rewrite Esg. reflexivity.
  - intros s' g' Hc' Hg'. apply Hmax.
    assert (Hin : In (s', state_rows rs s') groups)
      by (apply valid_groups_In; auto).
    destruct (Forall2_In_left _ _ _ Hall _ Hin) as [[k' y] [Hy [_ Hgy]]].
    simpl in Hgy. rewrite Hg' in Hgy. inversion Hgy; subst y.
    apply in_map_iff. exists (k', g'). auto.
Qed.


End MostImprovedState.


(** ** [analyze_data] and its parts *)

(** What [analyze_data] stores under each key of the insights is the value
    of the corresponding analysis of the rows. *)
Lemma analyze_data_insights (qs : argsort_t) (df : DataFrame) (ins : insights) :
  fst (analyze_data qs df) = inr ins ->
  peak_performance (rows df) = inr (peak_performance_of ins)
  /\ insights_pop_group_table ins = pop_group_table qs (rows df)
  /\ insights_overall_growth ins = overall_growth (rows df)
  /\ most_improved_state qs (rows df) = inr (insights_most_improved_state ins).
Proof.
  unfold analyze_data, analyze_summary, bind.
  destruct (format_date_range (rows df)) as [e|range]; [discriminate|].
  destruct (peak_performance (rows df)) as [e|pk]; [discriminate|].
  simpl.
  destruct (most_improved_state qs (rows df)) as [e|mi]; [discriminate|].
  intros H. inversion H; subst ins. simpl. auto.
Qed.

(** On a non-empty table with distinct index labels and no missing [avg],
    [analyze_data] returns its insights. *)
Lemma analyze_data_returns (qs : argsort_t) (df : DataFrame) :
  sorting_routine qs ->
  rows df <> [] ->
  NoDup (map index (rows df)) ->
  Forall (fun r => F64.is_nan (avg r) = false) (rows df) ->
  exists ins, fst (analyze_data qs df) = inr ins.
Proof.
  intros Hqs Hne Hnd Hnn.
  destruct (peak_row_first_maximum (rows df) Hne Hnd Hnn)
    as [i [r [_ [Hrow _]]]].
  assert (Hp : peak_performance (rows df) = inr (mkPeak (avg r) (peak_details r)))
    by (unfold peak_performance; rewrite Hrow; reflexivity).
  destruct (month_min_earliest (rows df) Hne) as [lo [Hlo _]].
  destruct (month_max_latest (rows df) Hne) as [hi [Hhi _]].
  assert (Hmi : exists mi, most_improved_state qs (rows df) = inr mi).
  { destruct (valid_growth_rows (rows df)) as [|r0 vr] eqn:Ev.
    - exists no_improved_state. unfold most_improved_state. rewrite Ev.
      reflexivity.
    - destruct (most_improved_state_selected qs Hqs (rows df))
        as [s [g [Hm _]]]; [rewrite Ev; discriminate|].
      eauto. }
  destruct Hmi as [mi Hmi].
  unfold analyze_data, analyze_summary, format_date_range, bind.
  rewrite Hlo, Hhi, Hp, Hmi. simpl. eauto.
Qed.

(** * Further properties of the script *)

(** ** Loading: which rows are kept *)

Section LoaderRows.

Variable parse_datetime : string -> option Timestamp.t.
Variable parse_number : string -> option float.

Lemma dropna_zip_cleaned (fetched : list raw_row) (k : nat)
    (mo : list (option Timestamp.t)) :
  to_datetime parse_datetime (map raw_month fetched) = inr mo ->
  dropna
    (zip_columns (seq k (List.length fetched))
       (map (fun r => option_map normalize_state (raw_state r)) fetched)
       mo
       (map (fun r => option_map normalize_pop_group (raw_pop_group r)) fetched)
       (map (fun r => to_numeric_coerce parse_number (raw_avg r)) fetched))
  = flat_map (fun p => match clean_row parse_datetime parse_number (fst p) (snd p) with
                       | Some r => [r]
                       | None => []
                       end)
             (combine (seq k (List.length fetched)) fetched).
Proof.
  revert k mo. induction fetched as [|raw fetched IH]; intros k mo Hmo.
  - reflexivity.
  - simpl in Hmo. unfold bind in Hmo.
    destruct (to_datetime_cell parse_datetime (raw_month raw)) as [e|v] eqn:Ev;
      [discriminate|].
    destruct (to_datetime parse_datetime (map raw_month fetched)) as [e|vs] eqn:Evs;
      [discriminate|].
    inversion Hmo; subst mo. simpl.
    rewrite (IH (S k) vs eq_refl). f_equal.
    unfold dropna_row, clean_row. simpl. rewrite Ev.
    destruct (raw_state raw), v, (raw_pop_group raw); simpl; try reflexivity.
    destruct (F64.is_nan (to_numeric_coerce parse_number (raw_avg raw)));
      reflexivity.
Qed.

Lemma convert_dropna_cleaned (fetched : list raw_row) (frame : list converted_row) :
  convert parse_datetime parse_number fetched = inr frame ->
  dropna frame = cleaned_rows parse_datetime parse_number fetched.
Proof.
  unfold convert, bind.
  destruct (to_datetime parse_datetime (map raw_month fetched)) as [e|mo] eqn:E;
    [discriminate|].
  intros H. inversion H; subst frame.
  apply dropna_zip_cleaned. exact E.
Qed.

Lemma cleaned_rows_In (fetched : list raw_row) (r : Row) :
  In r (cleaned_rows parse_datetime parse_number fetched) <->
  exists i raw,
    nth_error fetched i = Some raw
    /\ clean_row parse_datetime parse_number i raw = Some r.
Proof.
  unfold cleaned_rows. rewrite in_flat_map. split.
  - intros [[i raw] [Hin Hr]]. simpl in Hr.
    exists i, raw. split.
    + pose proof (enumerate_positioned fetched) as H.
      rewrite Forall_forall in H. apply (H _ Hin).
    + destruct (clean_row parse_datetime parse_number i raw) as [r'|];
        [destruct Hr as [<-|[]]; reflexivity | contradiction].
  - intros [i [raw [Hi Hr]]]. exists (i, raw). split.
    + apply enumerate_In_nth, Hi.
    + simpl. rewrite Hr. left. reflexivity.
Qed.

Lemma cleaned_rows_length (fetched : list raw_row) :
  (List.length (cleaned_rows parse_datetime parse_number fetched)
   <= List.length fetched)%nat.
Proof.
  unfold cleaned_rows. rewrite <- (enumerate_length fetched).
  induction (enumerate fetched) as [|p l IH]; simpl; [lia|].
  rewrite length_app.
  destruct (clean_row parse_datetime parse_number (fst p) (snd p)); simpl; lia.
Qed.


End LoaderRows.


(** ** Normalization of states and categories *)

Ltac all_chars c :=
  destruct c as [[] [] [] [] [] [] [] []]; vm_compute; try reflexivity;
  try congruence.

Lemma lower_char_space (c : ascii) :
  Str.is_space (Str.lower_char c) = Str.is_space c.
Proof. all_chars c. Qed.

Lemma upper_char_space (c : ascii) :
  Str.is_space (Str.upper_char c) = Str.is_space c.
Proof. all_chars c. Qed.

Lemma lower_char_idem (c : ascii) :
  Str.lower_char (Str.lower_char c) = Str.lower_char c.
Proof. all_chars c. Qed.

Lemma upper_char_idem (c : ascii) :
  Str.upper_char (Str.upper_char c) = Str.upper_char c.
Proof. all_chars c. Qed.

Lemma lower_char_cased (c : ascii) :
  Str.is_cased (Str.lower_char c) = Str.is_cased c.
Proof. all_chars c. Qed.

Lemma upper_char_cased (c : ascii) :
  Str.is_cased (Str.upper_char c) = Str.is_cased c.
Proof. all_chars c. Qed.

Lemma lstrip_length (s : string) :
  (String.length (Str.lstrip s) <= String.length s)%nat.
Proof.
  induction s as [|c s IH]; simpl; [lia|].
  destruct (Str.is_space c); simpl; lia.
Qed.

Lemma lstrip_fixed (c : ascii) (s : string) :
  Str.lstrip (String c s) = String c s <-> Str.is_space c = false.
Proof.
  simpl. destruct (Str.is_space c) eqn:E; split; intros H;
    try reflexivity; try discriminate.
  pose proof (lstrip_length s) as Hlen. rewrite H in Hlen. simpl in Hlen. lia.
Qed.

Lemma rstrip_fixed (c : ascii) (s : string) :
  Str.rstrip (String c s) = String c s <->
  (s = "" /\ Str.is_space c = false) \/ (s <> "" /\ Str.rstrip s = s).
Proof.
  simpl. destruct (Str.rstrip s) as [|k kept] eqn:E.
  - destruct (Str.is_space c) eqn:Ec; split.
    + discriminate.
    + intros [[_ H]|[Hne H]]; [discriminate | congruence].
    + intros H. inversion H. left. auto.
    + intros [[Hs _]|[Hne H]]; [rewrite Hs; reflexivity | congruence].
  - split.
    + intros H. inversion H as [H1]. right. split; [discriminate | reflexivity].
    + intros [[Hs _]|[_ H]].
      * rewrite Hs in E. discriminate E.
      * rewrite H. reflexivity.
Qed.

Lemma lstrip_idem (s : string) : Str.lstrip (Str.lstrip s) = Str.lstrip s.
Proof.
  induction s as [|c s IH]; simpl; [reflexivity|].
  destruct (Str.is_space c) eqn:E; [exact IH|].
  simpl. rewrite E. reflexivity.
Qed.

Lemma rstrip_idem (s : string) : Str.rstrip (Str.rstrip s) = Str.rstrip s.
Proof.
  induction s as [|c s IH]; simpl; [reflexivity|].
  destruct (Str.rstrip s) as [|k kept] eqn:E.
  - destruct (Str.is_space c) eqn:Ec; [reflexivity|].
    simpl. rewrite Ec. reflexivity.
  - change (Str.rstrip (String c (String k kept))) with
      (match Str.rstrip (String k kept) with
       | "" => if Str.is_space c then "" else String c ""
       | kept' => String c kept'
       end).
    rewrite IH. reflexivity.
Qed.

Lemma lstrip_rstrip_fixed (t : string) :
  Str.lstrip t = t -> Str.lstrip (Str.rstrip t) = Str.rstrip t.
Proof.
  destruct t as [|c t]; [reflexivity|].
  intros H. apply lstrip_fixed in H.
  simpl. destruct (Str.rstrip t).
  - rewrite H. simpl. rewrite H. reflexivity.
  - simpl. rewrite H. reflexivity.
Qed.

Lemma strip_stripped (s : string) : stripped (Str.strip s).
Proof.
  unfold stripped, Str.strip. split.
  - apply lstrip_rstrip_fixed, lstrip_idem.
  - apply rstrip_idem.
Qed.

Lemma stripped_strip (t : string) : stripped t -> Str.strip t = t.
Proof. intros [Hl Hr]. unfold Str.strip. rewrite Hl. exact Hr. Qed.

Lemma strip_idem (s : string) : Str.strip (Str.strip s) = Str.strip s.
Proof. apply stripped_strip, strip_stripped. Qed.

Lemma rstrip_map_fixed (f : ascii -> ascii) (t : string) :
  (forall c, Str.is_space c = false -> Str.is_space (f c) = false) ->
  Str.rstrip t = t -> Str.rstrip (Str.map_chars f t) = Str.map_chars f t.
Proof.
  intros Hf. induction t as [|c t IH]; intros H; [reflexivity|].
  apply rstrip_fixed in H. change (Str.map_chars f (String c t))
    with (String (f c) (Str.map_chars f t)).
  apply rstrip_fixed. destruct H as [[-> Hc]|[Hne Ht]].
  - left. split; [reflexivity | apply Hf, Hc].
  - right. split; [|apply IH, Ht].
    destruct t; [congruence | discriminate].
Qed.

Lemma map_chars_stripped (f : ascii -> ascii) (t : string) :
  (forall c, Str.is_space c = false -> Str.is_space (f c) = false) ->
  stripped t -> stripped (Str.map_chars f t).
Proof.
  intros Hf [Hl Hr]. split; [|apply rstrip_map_fixed; assumption].
  destruct t as [|c t]; [reflexivity|].
  apply lstrip_fixed in Hl.
  change (Str.map_chars f (String c t)) with (String (f c) (Str.map_chars f t)).
  apply lstrip_fixed, Hf, Hl.
Qed.

Lemma title_char_space (b : bool) (c : ascii) :
  Str.is_space (if b then Str.lower_char c else Str.upper_char c)
  = Str.is_space c.
Proof. destruct b; [apply lower_char_space | apply upper_char_space]. Qed.

Lemma title_from_stripped (b : bool) (t : string) :
  stripped t -> stripped (Str.title_from b t).
Proof.
  intros [Hl Hr]. split.
  - destruct t as [|c t]; [reflexivity|].
    apply lstrip_fixed in Hl. simpl Str.title_from.
    apply lstrip_fixed. rewrite title_char_space. exact Hl.
  - clear Hl. revert b Hr. induction t as [|c t IH]; intros b Hr; [reflexivity|].
    apply rstrip_fixed in Hr. simpl Str.title_from. apply rstrip_fixed.
    destruct Hr as [[-> Hc]|[Hne Ht]].
    + left. split; [reflexivity|]. rewrite title_char_space. exact Hc.
    + right. split; [|apply IH, Ht].
      destruct t; [congruence | discriminate].
Qed.

Lemma title_from_idem (b : bool) (s : string) :
  Str.title_from b (Str.title_from b s) = Str.title_from b s.
Proof.
  revert b. induction s as [|c s IH]; intros b; [reflexivity|].
  simpl. f_equal.
  - destruct b; [apply lower_char_idem | apply upper_char_idem].
  - replace (Str.is_cased (if b then Str.lower_char c else Str.upper_char c))
      with (Str.is_cased c)
      by (destruct b; [rewrite lower_char_cased | rewrite upper_char_cased];
          reflexivity).
    apply IH.
Qed.

Lemma lower_idem (s : string) : Str.lower (Str.lower s) = Str.lower s.
Proof.
  unfold Str.lower. induction s as [|c s IH]; simpl; [reflexivity|].
  rewrite lower_char_idem, IH. reflexivity.
Qed.

Lemma normalize_state_idem (s : string) :
  normalize_state (normalize_state s) = normalize_state s.
Proof.
  unfold normalize_state.
  rewrite (stripped_strip (Str.title (Str.strip s))).
  - apply title_from_idem.
  - apply title_from_stripped, strip_stripped.
Qed.

Lemma normalize_pop_group_idem (label : string) :
  normalize_pop_group (normalize_pop_group label) = normalize_pop_group label.
Proof.
  unfold normalize_pop_group, replace_s_urban.
  assert (Hs : stripped (Str.lower (Str.strip label))).
  { apply map_chars_stripped; [|apply strip_stripped].
    intros c Hc. rewrite lower_char_space. exact Hc. }
  assert (Hl : Str.lower (Str.lower (Str.strip label)) = Str.lower (Str.strip label))
    by apply lower_idem.
  set (t := Str.lower (Str.strip label)) in *.
  destruct (String.eqb_spec t "s - urban") as [E|E].
  - reflexivity.
  - rewrite (stripped_strip t Hs), Hl.
    destruct (String.eqb_spec t "s - urban"); [contradiction | reflexivity].
Qed.


(** ** The aggregator's precondition and the driver *)

Lemma exec_seq (a b : Report.action) (d : PDF) :
  execState (Monad.bind a (fun _ => b)) d = execState b (execState a d).
Proof.
  unfold execState. simpl. destruct (runState a d). reflexivity.
Qed.

Lemma create_report_last_call (format_2f : float -> string) (now : string)
    (ins : insights) (filename : string) (d : PDF) :
  last (calls (execState (Report.create_report format_2f now ins filename) d))
       AddPage
  = Output filename.
Proof.
  unfold Report.create_report, Report.output.
  repeat rewrite exec_seq. rewrite emit_run.
  cbv beta iota delta [calls]. apply last_last.
Qed.

Section AnalyzeTable.

Variable qs : argsort_t.
Hypothesis qs_routine : sorting_routine qs.

(** X3.  On a table with distinct index labels and no missing [avg],
    [analyze_data] raises exactly when the table is empty, and then leaves
    the table untouched; on a non-empty table it returns the insights, the
    record count is the number of rows and the date range reads
    "<earliest month> to <latest month>". *)
Theorem analyze_data_requires_rows (df : DataFrame) :
  NoDup (map index (rows df)) ->
  Forall (fun r => F64.is_nan (avg r) = false) (rows df) ->
  (rows df = [] /\ exists e, analyze_data qs df = (inl e, df))
  \/ (rows df <> []
      /\ exists ins lo hi,
           analyze_data qs df = (inr ins, set_year df)
           /\ total_records ins = List.length (rows df)
           /\ earliest_month (rows df) lo /\ latest_month (rows df) hi
           /\ date_range ins
              = (Timestamp.strftime_b_Y lo ++ " to "
                   ++ Timestamp.strftime_b_Y hi)%string).
Proof.
  intros Hnd Hnn. destruct (rows df) as [|r0 rs0] eqn:Erows.
  - left. split; [reflexivity|]. unfold analyze_data. rewrite Erows.
    simpl. eauto.
  - right. split; [discriminate|]. rewrite <- Erows in *.
    assert (Hne : rows df <> []) by (rewrite Erows; discriminate).
    destruct (peak_row_first_maximum (rows df) Hne Hnd Hnn)
      as [i [r [_ [Hrow _]]]].
    destruct (month_min_earliest (rows df) Hne) as [lo [Hlo Hearly]].
    destruct (month_max_latest (rows df) Hne) as [hi [Hhi Hlate]].
    assert (Hmi : exists mi, most_improved_state qs (rows df) = inr mi).
    { destruct (valid_growth_rows (rows df)) as [|v vr] eqn:Ev.
      - exists no_improved_state. unfold most_improved_state. rewrite Ev.
        reflexivity.
      - destruct (most_improved_state_selected qs qs_routine (rows df))
          as [s [g [Hm _]]]; [rewrite Ev; discriminate|].
        eauto. }
    destruct Hmi as [mi Hmi].
    eexists. exists lo, hi. split; [|split; [|split; [exact Hearly|split; [exact Hlate|]]]].
    + unfold analyze_data, analyze_summary, format_date_range, peak_performance,
        bind.
      rewrite Hlo, Hhi, Hrow, Hmi. reflexivity.
    + reflexivity.
    + reflexivity.
Qed.

End AnalyzeTable.

Lemma analyze_data_requires_rows_witness :
  sorting_routine argsort_stable
  /\ NoDup (map index (rows example_frame))
  /\ Forall (fun r => F64.is_nan (avg r) = false) (rows example_frame)
  /\ exists ins,
       analyze_data argsort_stable example_frame = (inr ins, set_year example_frame)
       /\ total_records ins = 3%nat.
Proof.
  assert (H2 : NoDup (map index (rows example_frame))).
  { simpl. repeat constructor; simpl; intuition discriminate. }
  assert (H3 : Forall (fun r => F64.is_nan (avg r) = false) (rows example_frame)).
  { repeat constructor. }
  split; [exact argsort_stable_routine|]. split; [exact H2|]. split; [exact H3|].
  destruct (analyze_data_requires_rows argsort_stable argsort_stable_routine
              example_frame H2 H3) as [[Hnil _]|[_ [ins [lo [hi [Ha [Hn _]]]]]]].
  - discriminate Hnil.
  - exists ins. split; [exact Ha | exact Hn].
Defined.

Section Driver.

Variable parse_datetime : string -> option Timestamp.t.
Variable parse_number : string -> option float.
Variable qs : argsort_t.
Variable format_2f : float -> string.
Variable now timestamp : string.
Variable page_width margin : float.
Hypothesis qs_routine : sorting_routine qs.

Local Abbreviation run :=
  (main parse_datetime parse_number qs format_2f now timestamp page_width margin).


End Driver.


(** ** State ranking *)

Lemma neg_involutive (x : float) : F64.neg (F64.neg x) = x.
Proof. destruct x as [[]|[]| |[] m e]; reflexivity. Qed.

Lemma firstn_firstn_app {A} (n : nat) (x y : list A) :
  firstn n (firstn n x ++ y) = firstn n (x ++ y).
Proof.
  revert x. induction n as [|n IH]; intros x; [reflexivity|].
  destruct x as [|a x]; [reflexivity|]. simpl. f_equal. apply IH.
Qed.

Lemma take_firstn {A} (n : nat) (ix : list nat) (l : list A) :
  Forall (fun j => (j < List.length l)%nat) ix ->
  take (firstn n ix) l = firstn n (take ix l).
Proof.
  intros H. revert n. induction H as [|j ix Hj _ IH]; intros n.
  - destruct n; reflexivity.
  - destruct n as [|n]; [reflexivity|]. simpl.
    destruct (nth_error l j) eqn:E.
    + simpl. f_equal. apply IH.
    + apply nth_error_None in E. lia.
Qed.

Lemma perm_seq_valid (ix : list nat) (n : nat) :
  Permutation ix (seq 0 n) -> Forall (fun j => (j < n)%nat) ix.
Proof.
  intros H. apply Forall_forall. intros j Hj.
  eapply Permutation_in in Hj; [|exact H]. apply in_seq in Hj. lia.
Qed.

Lemma keyed_take {A B} (h : nat * B -> A) (l : list A) (sub : list (nat * B)) :
  Forall (fun p => nth_error l (fst p) = Some (h p)) sub ->
  take (map fst sub) l = map h sub.
Proof.
  induction 1 as [|p sub Hp _ IH]; simpl; [reflexivity|].
  rewrite Hp, IH. reflexivity.
Qed.

Section Selection.

Variable qs : argsort_t.
Hypothesis qs_routine : sorting_routine qs.

Lemma nargsort_values_sorted (vals : list float) (asc : bool) :
  StronglySorted (selection_order (negb asc))
    (take (nargsort qs F64.sort_leb F64.is_nan vals asc) vals).
Proof.
  destruct asc; simpl negb; unfold selection_order.
  - rewrite take_nargsort.
    set (V := filter (fun x => negb (F64.is_nan x)) vals).
    assert (HV : Forall (fun x => F64.is_nan x = false) V).
    { apply Forall_forall. intros x Hx. apply filter_In in Hx.
      destruct Hx as [_ Hx]. apply negb_true_iff in Hx. exact Hx. }
    apply StronglySorted_app.
    + eapply (StronglySorted_on (fun x => F64.is_nan x = false)).
      * apply Forall_forall. intros x Hx. apply take_In in Hx.
        rewrite Forall_forall in HV. apply HV, Hx.
      * intros a b Ha Hb H. right.
        rewrite <- (F64Facts.sort_leb_leb a b Hb). exact H.
      * apply (argsort_sorted qs qs_routine).
        -- exact F64Facts.sort_leb_total.
        -- exact F64Facts.sort_leb_trans.
    + clear. induction vals as [|x vs IH]; simpl; [constructor|].
      destruct (F64.is_nan x) eqn:E; [|exact IH].
      constructor; [exact IH|].
      apply Forall_forall. intros y Hy. apply filter_In in Hy. left. apply Hy.
    + intros a b _ Hb. apply filter_In in Hb. left. apply Hb.
  - pose proof (sort_descending_sorted qs qs_routine (fun x : float => x) vals) as H.
    rewrite map_id in H. exact H.
Qed.

(** [nlargest(n)] and [nsmallest(n)] return the first [n] positions of an
    ordering of the whole series. *)
Lemma select_n_prefix (largest : bool) (n : nat) (vals : list float) :
  (0 < n)%nat ->
  exists L,
    select_n qs largest n vals = firstn n L
    /\ Permutation L (seq 0 (List.length vals))
    /\ StronglySorted (selection_order largest) (take L vals).
Proof.
  intros Hn. unfold select_n.
  destruct (Nat.eqb_spec n 0) as [->|_]; [lia|].
  destruct (Nat.leb_spec (List.length vals) n) as [_|_].
  - exists (nargsort qs F64.sort_leb F64.is_nan vals (negb largest)).
    split; [reflexivity|]. split.
    + apply nargsort_perm, qs_routine.
    + rewrite <- (negb_involutive largest) at 1. apply nargsort_values_sorted.
  - set (E := enumerate vals).
    set (dropped := filter (fun p => negb (F64.is_nan (snd p))) E).
    set (nans := filter (fun p => F64.is_nan (snd p)) E).
    set (g := fun x : float => if largest then F64.neg x else x).
    set (arr := map (fun p : nat * float => (fst p, g (snd p))) dropped).
    set (before := fun a b : nat * float => F64.sort_leb (snd a) (snd b)).
    set (inds := insertion_sort before arr).
    exists (map fst inds ++ map fst nans).
    assert (Hperm : Permutation inds arr) by apply insertion_sort_perm.
    assert (Hgg : forall x, g (g x) = x).
    { intros x. unfold g. destruct largest; [apply neg_involutive | reflexivity]. }
    assert (Hgn : forall x, F64.is_nan (g x) = F64.is_nan x).
    { intros x. unfold g. destruct largest; [apply F64Facts.is_nan_neg | reflexivity]. }
    assert (Hpos : Forall (positioned vals) E) by apply enumerate_positioned.
    assert (Harr : Forall (fun p => nth_error vals (fst p) = Some (g (snd p))
                                    /\ F64.is_nan (snd p) = false) arr).
    { apply Forall_forall. intros p Hp. unfold arr in Hp.
      apply in_map_iff in Hp. destruct Hp as [q [<- Hq]]. simpl.
      unfold dropped in Hq. apply filter_In in Hq. destruct Hq as [Hq Hqn].
      rewrite Forall_forall in Hpos. rewrite Hgg, Hgn. split.
      - apply (Hpos q Hq).
      - apply negb_true_iff, Hqn. }
    assert (Hinds : Forall (fun p => nth_error vals (fst p) = Some (g (snd p))
                                     /\ F64.is_nan (snd p) = false) inds).
    { eapply Permutation_Forall; [symmetry; exact Hperm | exact Harr]. }
    split; [|split].
    + rewrite <- firstn_map. apply firstn_firstn_app.
    + rewrite <- (enumerate_fst vals). fold E.
      eapply Permutation_trans;
        [|apply Permutation_map;
          apply (filter_split_perm (fun p => F64.is_nan (snd p)) E)].
      rewrite map_app. fold dropped nans. apply Permutation_app_tail.
      rewrite Hperm. unfold arr. rewrite map_map. simpl. reflexivity.
    + rewrite take_app.
      rewrite (keyed_take (fun p => g (snd p)) vals inds)
        by (eapply Forall_impl; [|exact Hinds]; intros p [H _]; exact H).
      rewrite (positioned_take vals nans)
        by (apply Forall_filter_keep; exact Hpos).
      apply StronglySorted_app.
      * apply StronglySorted_map
          with (f := fun p : nat * float => g (snd p))
               (R := selection_order largest).
        assert (Hs : StronglySorted (fun a b => before a b = true) inds).
        { apply insertion_sort_sorted with (le := before).
          - intros a b c. apply F64Facts.sort_leb_trans.
          - auto.
          - intros a b H. unfold before in *.
            destruct (F64Facts.sort_leb_total (snd a) (snd b)); congruence. }
        eapply (StronglySorted_on
                  (fun p : nat * float => F64.is_nan (snd p) = false));
          [| |exact Hs].
        -- eapply Forall_impl; [|exact Hinds]. intros p [_ H]. exact H.
        -- intros a b Ha Hb H. unfold before in H.
           rewrite F64Facts.sort_leb_leb in H by exact Hb.
           unfold selection_order, g. destruct largest.
           ++ right. rewrite F64Facts.leb_neg. exact H.
           ++ right. exact H.
      * apply StronglySorted_map with (f := snd) (R := selection_order largest).
        unfold nans. clear. induction E as [|p l IH]; simpl; [constructor|].
        destruct (F64.is_nan (snd p)) eqn:Ep; [|exact IH].
        constructor; [exact IH|].
        apply Forall_forall. intros q Hq. apply filter_In in Hq.
        unfold selection_order. destruct largest; left; apply Hq.
      * intros a b _ Hb. apply in_map_iff in Hb. destruct Hb as [q [<- Hq]].
        unfold nans in Hq. apply filter_In in Hq.
        unfold selection_order. destruct largest; left; apply Hq.
Qed.

End Selection.

Lemma StronglySorted_app_inv {A} (R : A -> A -> Prop) (l1 l2 : list A) :
  StronglySorted R (l1 ++ l2) ->
  StronglySorted R l1 /\ (forall a b, In a l1 -> In b l2 -> R a b).
Proof.
  induction l1 as [|x l1 IH]; simpl; intros H.
  - split; [constructor | intros a b []].
  - inversion H as [|? ? Hs Hx]; subst. destruct (IH Hs) as [H1 H2].
    apply Forall_app in Hx. destruct Hx as [Hx1 Hx2]. split.
    + constructor; assumption.
    + intros a b [<-|Ha] Hb; [|auto].
      rewrite Forall_forall in Hx2. apply Hx2, Hb.
Qed.

Section StateRanking.

Variable qs : argsort_t.
Hypothesis qs_routine : sorting_routine qs.

Lemma select_n_ranking (largest : bool) (n : nat) (all : list state_row) :
  (0 < n)%nat ->
  ranking largest n all (take (select_n qs largest n (map st_mean all)) all).
Proof.
  intros Hn.
  destruct (select_n_prefix qs qs_routine largest n (map st_mean all) Hn)
    as [L [Hsel [Hperm Hsorted]]].
  rewrite length_map in Hperm.
  rewrite Hsel, take_firstn by (apply perm_seq_valid, Hperm).
  set (full := take L all) in *.
  assert (Hfull : Permutation full all) by (apply take_perm, Hperm).
  assert (Hs : StronglySorted
                 (fun a b => selection_order largest (st_mean a) (st_mean b))
                 full).
  { apply StronglySorted_map with (f := st_mean) (R := selection_order largest).
    unfold full. rewrite take_map. exact Hsorted. }
  rewrite <- (firstn_skipn n full) in Hs, Hfull.
  apply StronglySorted_app_inv in Hs. destruct Hs as [Hs1 Hs2].
  split; [|split; [exact Hs1|]].
  - rewrite length_firstn.
    rewrite <- (Permutation_length Hfull), length_app, length_firstn, length_skipn.
    lia.
  - exists (skipn n full). split; [exact Hfull | exact Hs2].
Qed.

(** X5.  The top-5 table is a ranking of the states by mean, descending:
    it holds five states (all of them when there are fewer), in
    non-increasing order of mean, and no state left out has a mean above
    that of a state listed.  The bottom-5 table is the same in ascending
    order.  States whose mean is missing come last in both. *)
Theorem state_tables_ranked (rs : list Row) :
  ranking true 5 (state_analysis rs) (top_5_states qs rs)
  /\ ranking false 5 (state_analysis rs) (bottom_5_states qs rs).
Proof.
  unfold top_5_states, bottom_5_states.
  split; apply select_n_ranking; lia.
Qed.

End StateRanking.

Lemma state_tables_ranked_witness :
  sorting_routine argsort_reversing
  /\ ranking true 5 (state_analysis (rows example_frame))
       (top_5_states argsort_reversing (rows example_frame))
  /\ map st_name (top_5_states argsort_reversing (rows example_frame))
     = ["California"; "Texas"].
Proof.
  split; [exact argsort_reversing_routine|].
  split; [|vm_compute; reflexivity].
  destruct (state_tables_ranked argsort_reversing argsort_reversing_routine
              (rows example_frame)) as [Htop _].
  exact Htop.
Defined.

(** ** The state table *)

Lemma state_analysis_In (rs : list Row) (t : state_row) :
  In t (state_analysis rs) ->
  In (st_name t) (group_keys state rs)
  /\ st_mean t = series_mean (map avg (state_rows rs (st_name t)))
  /\ record_count t
     = List.length (dropna_values (map avg (state_rows rs (st_name t)))).
Proof.
  unfold state_analysis. rewrite in_map_iff.
  intros [[i [k g]] [Heq Hin]]. subst t. simpl.
  apply enumerate_In, groupby_In in Hin. destruct Hin as [Hk ->]. auto.
Qed.

Lemma state_analysis_names (rs : list Row) :
  map st_name (state_analysis rs) = group_keys state rs.
Proof.
  unfold state_analysis. rewrite map_map.
  transitivity (map (fun p => fst (snd p)) (enumerate (groupby state rs))).
  - apply map_ext. intros [i [k g]]. reflexivity.
  - rewrite (map_enumerate fst). unfold groupby. rewrite map_map. simpl.
    apply map_id.
Qed.

Lemma dropna_values_all (vs : list float) :
  Forall (fun x => F64.is_nan x = false) vs -> dropna_values vs = vs.
Proof.
  intros H. apply filter_all. rewrite Forall_forall in H.
  intros x Hx. rewrite (H x Hx). reflexivity.
Qed.

Lemma key_counts_sum (rs : list Row) (keys : list string) :
  NoDup keys ->
  (forall r, In r rs -> In (state r) keys) ->
  list_sum (map (state_count rs) keys) = List.length rs.
Proof.
  intros Hnd. induction rs as [|r rs IH]; intros Hcover.
  - induction keys as [|k keys IHk]; [reflexivity|].
    simpl. inversion Hnd; subst. apply IHk; [assumption|]. intros r [].
  - assert (Hone : forall ks, NoDup ks ->
              list_sum (map (state_count (r :: rs)) ks)
              = (list_sum (map (state_count rs) ks)
                 + if in_dec string_dec (state r) ks then 1 else 0)%nat).
    { clear. intros ks Hks. induction Hks as [|k ks Hk Hks IHks];
        [reflexivity|].
      simpl map. simpl list_sum. rewrite IHks.
      unfold state_count at 1. simpl filter.
      destruct (String.eqb_spec (state r) k) as [E|E].
      - subst k. simpl List.length.
        destruct (in_dec string_dec (state r) (state r :: ks)) as [_|n];
          [|exfalso; apply n; left; reflexivity].
        destruct (in_dec string_dec (state r) ks) as [i|_];
          [contradiction|].
        unfold state_count. lia.
      - destruct (in_dec string_dec (state r) (k :: ks)) as [i|n];
          destruct (in_dec string_dec (state r) ks) as [i'|n'];
          unfold state_count; try lia.
        + destruct i as [Heq|Hin]; [congruence | contradiction].
        + exfalso. apply n. right. exact i'. }
    rewrite (Hone keys Hnd), IH by (intros r' Hr'; apply Hcover; right; exact Hr').
    destruct (in_dec string_dec (state r) keys) as [_|n].
    + simpl. lia.
    + exfalso. apply n, Hcover. left. reflexivity.
Qed.



(** ** The layout of a table *)

Lemma exec_get (k : PDF -> Report.action) (d : PDF) :
  execState (Monad.bind MonadState.get k) d = execState (k d) d.
Proof. reflexivity. Qed.

Lemma exec_ret (d : PDF) : execState (Monad.ret tt : Report.action) d = d.
Proof. reflexivity. Qed.

Lemma appended_assoc (d : PDF) (l1 l2 : list op) :
  mkPDF (pdf_w d) (l_margin d) (page d) ((calls d ++ l1) ++ l2)
  = mkPDF (pdf_w d) (l_margin d) (page d) (calls d ++ l1 ++ l2).
Proof. rewrite app_assoc. reflexivity. Qed.

Lemma for_each_cons {A} (x : A) (l : list A) (body : A -> Report.action) :
  Report.for_each (x :: l) body
  = Monad.bind (body x) (fun _ => Report.for_each l body).
Proof. reflexivity. Qed.

Lemma for_each_emit {A} (f : A -> op) (l : list A) (d : PDF) :
  execState (Report.for_each l (fun x => Report.emit (f x))) d
  = mkPDF (pdf_w d) (l_margin d) (page d) (calls d ++ map f l).
Proof.
  revert d. induction l as [|x l IH]; intros d.
  - simpl Report.for_each. rewrite exec_ret, app_nil_r. destruct d; reflexivity.
  - rewrite for_each_cons, exec_seq, IH, emit_run. simpl.
    rewrite <- app_assoc. reflexivity.
Qed.

Lemma for_each_rows (f : pyobj -> op) (rows : list (list pyobj)) (d : PDF) :
  execState
    (Report.for_each rows
       (fun row =>
          Monad.bind (Report.for_each row (fun item => Report.emit (f item)))
                     (fun _ => Report.emit (Ln None))))
    d
  = mkPDF (pdf_w d) (l_margin d) (page d)
          (calls d ++ flat_map (fun row => map f row ++ [Ln None]) rows).
Proof.
  revert d. induction rows as [|row rows IH]; intros d.
  - simpl Report.for_each. rewrite exec_ret, app_nil_r. destruct d; reflexivity.
  - rewrite for_each_cons, exec_seq, IH, exec_seq, emit_run, for_each_emit.
    simpl. repeat rewrite <- app_assoc. reflexivity.
Qed.

(** X7.  A table with at least one row and one column is drawn as follows,
    after whatever the document already holds: the bold font is selected,
    one header cell per column in column order, a line break, the plain
    font, then for each row one cell per item followed by a line break.
    All these cells have the same width, the page width less the two
    margins divided by the number of columns; floats are shown with two
    decimals, the other items as they are.  The page geometry and the page
    number are not touched. *)
Theorem simple_table_layout (format_2f : float -> string) (df : table)
    (d : PDF) :
  table_empty df = false ->
  let col_width :=
    F64.div (F64.sub (pdf_w d) (F64.mul (F64.of_Z 2) (l_margin d)))
            (F64.of_nat (List.length (t_columns df))) in
  execState (Report.simple_table format_2f df) d
  = mkPDF (pdf_w d) (l_margin d) (page d)
      (calls d
         ++ [SetFont "Arial" "B" 9]
         ++ map (fun col => Cell (PyFloat col_width) 7 col 1 0 "C" false)
                (t_columns df)
         ++ [Ln None; SetFont "Arial" "" 9]
         ++ flat_map
              (fun row =>
                 map (fun item =>
                        Cell (PyFloat col_width) 6
                             (Report.item_text format_2f item) 1 0 "C" false)
                     row
                 ++ [Ln None])
              (t_rows df)).
Proof.
  intros Hne col_width. unfold Report.simple_table. rewrite Hne.
  rewrite exec_seq, emit_run, exec_get. cbv zeta.
  rewrite exec_seq, for_each_emit.
  rewrite exec_seq, emit_run.
  rewrite exec_seq, emit_run.
  rewrite for_each_rows.
  cbv beta iota delta [pdf_w l_margin page calls].
  fold col_width. destruct d as [w m pg cs]. simpl.
  repeat rewrite <- app_assoc. reflexivity.
Qed.

Lemma simple_table_layout_witness :
  let df := mkTable ["State"; "Record Count"]
                    [[ObjStr "Texas"; ObjInt 1]] in
  let d := mkPDF (F64.of_Z 210) (F64.of_Z 10) 1 [] in
  table_empty df = false
  /\ calls (execState (Report.simple_table (fun _ => "") df) d)
     = [ SetFont "Arial" "B" 9;
         Cell (PyFloat (F64.of_Z 95)) 7 "State" 1 0 "C" false;
         Cell (PyFloat (F64.of_Z 95)) 7 "Record Count" 1 0 "C" false;
         Ln None; SetFont "Arial" "" 9;
         Cell (PyFloat (F64.of_Z 95)) 6 "Texas" 1 0 "C" false;
         Cell (PyFloat (F64.of_Z 95)) 6 "1" 1 0 "C" false;
         Ln None ].
Proof.
  intros df d. split; [reflexivity|].
  rewrite (simple_table_layout (fun _ => "") df d eq_refl).
  vm_compute. reflexivity.
Defined.

(** ** Column names of the spreadsheet *)

Lemma map_chars_compose (f g : ascii -> ascii) (s : string) :
  Str.map_chars f (Str.map_chars g s) = Str.map_chars (fun c => f (g c)) s.
Proof. induction s as [|c s IH]; simpl; [reflexivity | rewrite IH; reflexivity]. Qed.

Lemma map_chars_ext (f g : ascii -> ascii) (s : string) :
  (forall c, f c = g c) -> Str.map_chars f s = Str.map_chars g s.
Proof.
  intros H. induction s as [|c s IH]; simpl; [reflexivity|].
  rewrite H, IH. reflexivity.
Qed.

Lemma map_chars_list (f : ascii -> ascii) (s : string) :
  list_ascii_of_string (Str.map_chars f s) = map f (list_ascii_of_string s).
Proof. induction s as [|c s IH]; simpl; [reflexivity | rewrite IH; reflexivity]. Qed.

Lemma normalize_column_chars (col : string) :
  normalize_column col = Str.map_chars normalize_column_char (Str.strip col).
Proof.
  unfold normalize_column, replace_char, Str.lower.
  rewrite !map_chars_compose. reflexivity.
Qed.

Lemma normalize_column_char_idem (c : ascii) :
  normalize_column_char (normalize_column_char c) = normalize_column_char c.
Proof. all_chars c. Qed.

Lemma normalize_column_char_space (c : ascii) :
  Str.is_space c = false -> Str.is_space (normalize_column_char c) = false.
Proof. all_chars c. Qed.

Lemma normalize_column_char_plain (c : ascii) :
  (Ascii.eqb (normalize_column_char c) " "
   || Ascii.eqb (normalize_column_char c) "-"
   || Str.is_upper (normalize_column_char c))%bool = false.
Proof. all_chars c. Qed.


(** ** The dashboard: loading *)

Lemma zip_columns_pop_group ix st mo pg av (c : converted_row) :
  In c (zip_columns ix st mo pg av) ->
  In (c_pop_group c) pg /\ In (c_state c) st.
Proof.
  revert st mo pg av.
  induction ix as [|i0 ix IH]; intros st mo pg av Hin; [contradiction|].
  destruct st as [|s st], mo as [|m mo], pg as [|p pg], av as [|a av];
    try contradiction.
  simpl in Hin. destruct Hin as [<-|Hin].
  - split; left; reflexivity.
  - destruct (IH _ _ _ _ Hin). split; right; assumption.
Qed.

Lemma StronglySorted_filter {A} (R : A -> A -> Prop) (f : A -> bool)
    (l : list A) :
  StronglySorted R l -> StronglySorted R (filter f l).
Proof.
  induction 1 as [|x l Hl IH Hx]; simpl; [constructor|].
  destruct (f x); [|exact IH].
  constructor; [exact IH | apply Forall_filter_keep, Hx].
Qed.

Lemma seq_sorted (a n : nat) : StronglySorted lt (seq a n).
Proof.
  revert a. induction n as [|n IH]; intros a; simpl; constructor; [apply IH|].
  apply Forall_forall. intros x Hx. apply in_seq in Hx. lia.
Qed.

Lemma zip_columns_index_sorted ix st mo pg av :
  StronglySorted lt ix ->
  StronglySorted lt (map c_index (zip_columns ix st mo pg av)).
Proof.
  intros Hs. revert st mo pg av.
  induction Hs as [|i ix Hs IH Hi]; intros st mo pg av; [constructor|].
  destruct st as [|s st], mo as [|m mo], pg as [|p pg], av as [|a av];
    try constructor.
  - apply IH.
  - apply Forall_forall. intros x Hx. apply in_map_iff in Hx.
    destruct Hx as [c [<- Hc]]. apply zip_columns_In in Hc.
    destruct Hc as [k [Hk _]]. apply nth_error_In in Hk.
    rewrite Forall_forall in Hi. apply Hi, Hk.
Qed.

Lemma convert_length (parse_datetime : string -> option Timestamp.t)
    (parse_number : string -> option float) (fetched : list raw_row)
    (frame : list converted_row) :
  convert parse_datetime parse_number fetched = inr frame ->
  map c_index frame = seq 0 (List.length fetched).
Proof.
  unfold convert, bind.
  destruct (to_datetime parse_datetime (map raw_month fetched)) as [e|mo] eqn:E;
    [discriminate|].
  intros H. inversion H; subst frame; clear H. revert mo E.
  generalize 0%nat.
  induction fetched as [|raw fetched IH]; intros k mo E; [reflexivity|].
  simpl in E. unfold bind in E.
  destruct (to_datetime_cell parse_datetime (raw_month raw)); [discriminate|].
  destruct (to_datetime parse_datetime (map raw_month fetched)) as [e|vs] eqn:Evs;
    [discriminate|].
  inversion E; subst mo. simpl. f_equal. apply (IH (S k) vs eq_refl).
Qed.

Lemma convert_avg (parse_datetime : string -> option Timestamp.t)
    (parse_number : string -> option float) (fetched : list raw_row)
    (frame : list converted_row) :
  convert parse_datetime parse_number fetched = inr frame ->
  map c_avg frame
  = map (fun r => to_numeric_coerce parse_number (raw_avg r)) fetched.
Proof.
  unfold convert, bind.
  destruct (to_datetime parse_datetime (map raw_month fetched)) as [e|mo] eqn:E;
    [discriminate|].
  intros H. inversion H; subst frame; clear H. revert mo E.
  generalize 0%nat.
  induction fetched as [|raw fetched IH]; intros k mo E; [reflexivity|].
  simpl in E. unfold bind in E.
  destruct (to_datetime_cell parse_datetime (raw_month raw)); [discriminate|].
  destruct (to_datetime parse_datetime (map raw_month fetched)) as [e|vs] eqn:Evs;
    [discriminate|].
  inversion E; subst mo. simpl. f_equal. apply (IH (S k) vs eq_refl).
Qed.

Lemma to_datetime_inl (parse_datetime : string -> option Timestamp.t)
    (col : list month_cell) (e : exn) :
  to_datetime parse_datetime col = inl e ->
  exists s, In (MonthText s) col /\ parse_datetime s = None.
Proof.
  induction col as [|c col IH]; simpl; [discriminate|].
  unfold bind.
  destruct (to_datetime_cell parse_datetime c) as [e'|v] eqn:Ec.
  - intros _. destruct c as [|ts|s]; simpl in Ec; try discriminate.
    destruct (parse_datetime s) eqn:Ep; [discriminate|].
    exists s. auto.
  - destruct (to_datetime parse_datetime col) as [e'|vs]; [|discriminate].
    intros H. inversion H; subst e'.
    destruct (IH eq_refl) as [s [Hs Hp]]. exists s. auto.
Qed.



(** ** The dashboard: the state selector *)

Lemma somes_In (u : list (option string)) (x : string) :
  In x (flat_map (fun o : option string =>
                    match o with Some y => [y] | None => [] end) u)
  <-> In (Some x) u.
Proof.
  rewrite in_flat_map. split.
  - intros [[y|] [Hy Hx]]; [|contradiction].
    destruct Hx as [<-|[]]. exact Hy.
  - intros H. exists (Some x). split; [exact H | left; reflexivity].
Qed.

Lemma somes_NoDup (u : list (option string)) :
  NoDup u ->
  NoDup (flat_map (fun o : option string =>
                     match o with Some y => [y] | None => [] end) u).
Proof.
  induction 1 as [|o u Ho Hu IH]; simpl; [constructor|].
  destruct o as [y|]; simpl; [|exact IH].
  constructor; [|exact IH]. rewrite somes_In. exact Ho.
Qed.

Lemma map_Some_NoDup {A} (l : list A) : NoDup l -> NoDup (map Some l).
Proof.
  induction 1 as [|x l Hx _ IH]; simpl; constructor; [|exact IH].
  intros H. apply in_map_iff in H. destruct H as [y [Hy Hin]].
  inversion Hy; subst. contradiction.
Qed.

Lemma all_states_members (df_master : list converted_row)
    (sel : list (option string)) :
  Dashboard.all_states df_master = inr sel ->
  NoDup sel /\ (forall s, In s sel <-> In s (map c_state df_master)).
Proof.
  unfold Dashboard.all_states.
  pose proof (NoDup_nodup Dashboard.option_string_dec (map c_state df_master)) as Hnd.
  assert (Hin : forall s, In s (nodup Dashboard.option_string_dec
                                      (map c_state df_master))
                          <-> In s (map c_state df_master))
    by (intros s; apply nodup_In).
  destruct (nodup Dashboard.option_string_dec (map c_state df_master))
    as [|a [|b u]] eqn:Eu.
  - intros H. inversion H; subst. split; [constructor | exact Hin].
  - intros H. inversion H; subst. split; [exact Hnd | exact Hin].
  - destruct (forallb Dashboard.is_some (a :: b :: u)) eqn:Esome; [|discriminate].
    intros H. inversion H; subst sel; clear H.
    rewrite forallb_forall in Esome.
    set (somes := flat_map (fun o : option string =>
                              match o with Some y => [y] | None => [] end)
                           (a :: b :: u)) in *.
    assert (Hperm : Permutation (insertion_sort string_leb somes) somes)
      by apply insertion_sort_perm.
    split.
    + apply map_Some_NoDup.
      eapply Permutation_NoDup; [symmetry; exact Hperm|].
      apply somes_NoDup, Hnd.
    + intros s. rewrite <- Hin. split.
      * intros Hs. apply in_map_iff in Hs. destruct Hs as [x [<- Hx]].
        apply somes_In. eapply Permutation_in; [exact Hperm | exact Hx].
      * intros Hs. pose proof (Esome s Hs) as Hsome.
        destruct s as [x|]; [|discriminate].
        apply in_map. eapply Permutation_in; [symmetry; exact Hperm|].
        apply somes_In, Hs.
Qed.

(** X10.  The state selector of the dashboard cannot be built when the
    loaded table holds both a row with a missing state and a row with a
    state: sorting the distinct values raises a [TypeError].  When it can be
    built it lists every state of the table once, and the default selection
    (all of them) filters nothing out. *)
Theorem all_states_selector (df_master : list converted_row) :
  ((exists c c', In c df_master /\ In c' df_master
                 /\ c_state c = None /\ c_state c' <> None) ->
   Dashboard.all_states df_master = inl TypeError)
  /\ (forall sel,
         Dashboard.all_states df_master = inr sel ->
         NoDup sel
         /\ (forall s, In s sel <-> In s (map c_state df_master))
         /\ Dashboard.select_states sel df_master = df_master).
Proof.
  split.
  - intros [c [c' [Hc [Hc' [Hnone Hsome]]]]].
    unfold Dashboard.all_states.
    pose proof (NoDup_nodup Dashboard.option_string_dec (map c_state df_master)) as Hnd.
    assert (Hin : forall s, In s (map c_state df_master) ->
                            In s (nodup Dashboard.option_string_dec
                                        (map c_state df_master)))
      by (intros s; apply nodup_In).
    assert (H1 : In None (nodup Dashboard.option_string_dec (map c_state df_master)))
      by (apply Hin; rewrite <- Hnone; apply in_map, Hc).
    assert (H2 : In (c_state c')
                    (nodup Dashboard.option_string_dec (map c_state df_master)))
      by (apply Hin, in_map, Hc').
    destruct (nodup Dashboard.option_string_dec (map c_state df_master))
      as [|a [|b u]].
    + contradiction.
    + destruct H1 as [Ha|[]]. destruct H2 as [H2|[]]. congruence.
    + destruct (forallb Dashboard.is_some (a :: b :: u)) eqn:E; [|reflexivity].
      rewrite forallb_forall in E. specialize (E None H1). discriminate.
  - intros sel Hsel. destruct (all_states_members df_master sel Hsel) as [Hnd Hin].
    split; [exact Hnd|]. split; [exact Hin|].
    unfold Dashboard.select_states. apply filter_all. intros c Hc.
    destruct (in_dec Dashboard.option_string_dec (c_state c) sel) as [_|n];
      [reflexivity|].
    exfalso. apply n, Hin, in_map, Hc.
Qed.

Lemma all_states_selector_witness :
  (exists df_master,
      Dashboard.load_data parse_iso_date parse_digits master_missing_state
        = inr df_master
      /\ Dashboard.all_states df_master = inl TypeError)
  /\ (exists df_master sel,
        Dashboard.load_data parse_iso_date parse_digits master_example
          = inr df_master
        /\ Dashboard.all_states df_master = inr sel
        /\ sel = [Some "Ohio"; Some "Texas"]
        /\ Dashboard.select_states sel df_master = df_master).
Proof.
  split.
  - eexists. split; [vm_compute; reflexivity|].
    match goal with
    | |- Dashboard.all_states ?df = _ =>
        destruct (all_states_selector df) as [Hfail _]
    end.
    apply Hfail.
    eexists. eexists.
    split; [right; left; reflexivity|].
    split; [left; reflexivity|].
    split; [reflexivity | discriminate].
  - eexists. eexists. split; [vm_compute; reflexivity|].
    split; [vm_compute; reflexivity|]. split; [reflexivity|].
    match goal with
    | |- Dashboard.select_states ?sel ?df = _ =>
        destruct (all_states_selector df) as [_ Hok]
    end.
    apply Hok. vm_compute. reflexivity.
Defined.

(** ** The dashboard: the series handed to the forecaster *)

Lemma string_compare_trans (s1 s2 s3 : string) :
  String.compare s1 s2 <> Gt -> String.compare s2 s3 <> Gt ->
  String.compare s1 s3 <> Gt.
Proof.
  revert s2 s3. induction s1 as [|c1 s1 IH]; intros [|c2 s2] [|c3 s3];
    simpl; try congruence.
  unfold Ascii.compare.
  destruct (N.compare_spec (N_of_ascii c1) (N_of_ascii c2)) as [E12|L12|G12];
    destruct (N.compare_spec (N_of_ascii c2) (N_of_ascii c3)) as [E23|L23|G23];
    destruct (N.compare_spec (N_of_ascii c1) (N_of_ascii c3)) as [E13|L13|G13];
    try congruence; try lia.
  apply IH.
Qed.

Lemma string_leb_trans : transitive string_leb.
Proof.
  intros a b c. unfold string_leb, String.leb. intros H1 H2.
  pose proof (string_compare_trans a b c) as H.
  destruct (String.compare a b); try discriminate;
    destruct (String.compare b c); try discriminate;
    destruct (String.compare a c); try reflexivity;
    exfalso; apply H; congruence.
Qed.

Lemma string_leb_total : total string_leb.
Proof. intros a b. apply String.leb_total. Qed.

Lemma key_leb_total : total Dashboard.key_leb.
Proof.
  intros [m1 g1] [m2 g2]. unfold Dashboard.key_leb. simpl.
  destruct (Z.ltb_spec m1 m2); [auto|].
  destruct (Z.ltb_spec m2 m1); [auto|].
  destruct (Z.eqb_spec m1 m2); destruct (Z.eqb_spec m2 m1); try lia.
  apply string_leb_total.
Qed.

Lemma key_leb_trans : transitive Dashboard.key_leb.
Proof.
  intros [m1 g1] [m2 g2] [m3 g3]. unfold Dashboard.key_leb. simpl.
  destruct (Z.ltb_spec m1 m2); destruct (Z.ltb_spec m2 m3);
    destruct (Z.ltb_spec m1 m3);
    destruct (Z.eqb_spec m1 m2); destruct (Z.eqb_spec m2 m3);
    destruct (Z.eqb_spec m1 m3); try lia; try congruence.
  apply string_leb_trans.
Qed.

Lemma StronglySorted_distinct {A} (R : A -> A -> Prop) (l : list A) :
  StronglySorted R l -> NoDup l ->
  StronglySorted (fun a b => R a b /\ a <> b) l.
Proof.
  induction 1 as [|x l Hl IH Hx]; intros Hnd; [constructor|].
  inversion Hnd as [|? ? Hnotin Hnd']; subst.
  constructor; [apply IH, Hnd'|].
  rewrite Forall_forall in *. intros y Hy. split; [apply Hx, Hy|].
  intros ->. contradiction.
Qed.

Lemma row_key_In (df : list converted_row) (k : Timestamp.t * string) :
  In k (flat_map Dashboard.row_key df) <->
  exists c, In c df /\ c_month c = Some (fst k) /\ c_pop_group c = Some (snd k).
Proof.
  rewrite in_flat_map. unfold Dashboard.row_key. split.
  - intros [c [Hc Hk]]. exists c. split; [exact Hc|].
    destruct (c_month c), (c_pop_group c); try contradiction.
    destruct Hk as [<-|[]]. auto.
  - intros [c [Hc [Hm Hg]]]. exists c. split; [exact Hc|].
    rewrite Hm, Hg. left. destruct k; reflexivity.
Qed.

(** The months of the series of one category are those of its keys. *)
Lemma df_prophet_months (df : list converted_row) (group : string) :
  map fst (Dashboard.df_prophet (Dashboard.df_display df) group)
  = map fst
      (filter (fun k => String.eqb (snd k) group)
              (insertion_sort Dashboard.key_leb
                 (nodup Dashboard.key_dec (flat_map Dashboard.row_key df)))).
Proof.
  unfold Dashboard.df_prophet, Dashboard.df_display.
  induction (insertion_sort Dashboard.key_leb
               (nodup Dashboard.key_dec (flat_map Dashboard.row_key df)))
    as [|k l IH]; simpl; [reflexivity|].
  destruct (String.eqb (snd k) group); simpl; rewrite IH; reflexivity.
Qed.

Lemma sorted_equal_short (l : list Z) :
  StronglySorted Z.lt l -> (forall a b, In a l -> In b l -> a = b) ->
  (List.length l < 2)%nat.
Proof.
  intros Hs Heq. destruct l as [|a [|b l]]; simpl; try lia.
  inversion Hs as [|? ? _ Ha]; subst. inversion Ha as [|? ? Hab _]; subst.
  specialize (Heq a b (or_introl eq_refl) (or_intror (or_introl eq_refl))). lia.
Qed.

Section ForecastSeries.

Variable df : list converted_row.

Local Abbreviation display := (Dashboard.df_display df).

Lemma display_keys_In (k : Timestamp.t * string) :
  In k (insertion_sort Dashboard.key_leb
          (nodup Dashboard.key_dec (flat_map Dashboard.row_key df)))
  <-> exists c, In c df /\ c_month c = Some (fst k)
                /\ c_pop_group c = Some (snd k).
Proof.
  rewrite <- row_key_In.
  rewrite <- (nodup_In Dashboard.key_dec (flat_map Dashboard.row_key df) k).
  split; apply Permutation_in;
    [apply insertion_sort_perm | symmetry; apply insertion_sort_perm].
Qed.

Lemma df_prophet_sorted (group : string) :
  StronglySorted Z.lt (map fst (Dashboard.df_prophet display group)).
Proof.
  rewrite df_prophet_months.
  apply StronglySorted_map with (f := fst) (R := Z.lt).
  eapply (StronglySorted_on
            (fun k : Timestamp.t * string => snd k = group)
            (fun a b => Dashboard.key_leb a b = true /\ a <> b)).
  - apply Forall_forall. intros k Hk. apply filter_In in Hk.
    apply String.eqb_eq, Hk.
  - intros [m1 g1] [m2 g2] H1 H2 [Hle Hne]. simpl in *. subst g1 g2.
    unfold Dashboard.key_leb in Hle. simpl in Hle.
    destruct (Z.ltb_spec m1 m2); [assumption|].
    destruct (Z.eqb_spec m1 m2); [congruence | discriminate].
  - apply StronglySorted_filter, StronglySorted_distinct.
    + apply insertion_sort_sorted with (le := Dashboard.key_leb).
      * exact key_leb_trans.
      * auto.
      * intros a b H. destruct (key_leb_total a b); congruence.
    + eapply Permutation_NoDup; [symmetry; apply insertion_sort_perm|].
      apply NoDup_nodup.
Qed.

Lemma df_prophet_In (group : string) (m : Timestamp.t) :
  In m (map fst (Dashboard.df_prophet display group))
  <-> exists c, In c df /\ c_month c = Some m /\ c_pop_group c = Some group.
Proof.
  rewrite df_prophet_months, in_map_iff. split.
  - intros [[m' g] [Hm Hk]]. simpl in Hm. subst m'.
    apply filter_In in Hk. destruct Hk as [Hk Hg].
    simpl in Hg. apply String.eqb_eq in Hg. subst g.
    apply (display_keys_In (m, group)), Hk.
  - intros Hc. exists (m, group). split; [reflexivity|].
    apply filter_In. split; [apply display_keys_In, Hc | apply String.eqb_refl].
Qed.

Lemma df_prophet_value (group : string) (m : Timestamp.t) (y : float) :
  In (m, y) (Dashboard.df_prophet display group) ->
  y = series_mean (map c_avg (filter (Dashboard.has_key (m, group)) df)).
Proof.
  intros Hin. unfold Dashboard.df_prophet in Hin.
  apply in_map_iff in Hin. destruct Hin as [r [Hr Hin]].
  apply filter_In in Hin. destruct Hin as [Hin Hg].
  apply String.eqb_eq in Hg.
  unfold Dashboard.df_display in Hin. apply in_map_iff in Hin.
  destruct Hin as [[m' g] [Hk _]]. subst r. simpl in *.
  inversion Hr; subst. reflexivity.
Qed.

Lemma df_prophet_short (group : string) :
  (List.length (Dashboard.df_prophet display group) < 2)%nat
  <-> single_month df group.
Proof.
  rewrite <- (length_map fst). split.
  - intros Hlen c c' m m' Hc Hc' Hg Hg' Hm Hm'.
    assert (Ha : In m (map fst (Dashboard.df_prophet display group)))
      by (apply df_prophet_In; exists c; auto).
    assert (Hb : In m' (map fst (Dashboard.df_prophet display group)))
      by (apply df_prophet_In; exists c'; auto).
    destruct (map fst (Dashboard.df_prophet display group)) as [|x [|y l]];
      simpl in *; [contradiction | | lia].
    destruct Ha as [<-|[]], Hb as [<-|[]]. reflexivity.
  - intros Hone. apply sorted_equal_short; [apply df_prophet_sorted|].
    intros a b Ha Hb. apply df_prophet_In in Ha, Hb.
    destruct Ha as [c [Hc [Hm Hg]]]. destruct Hb as [c' [Hc' [Hm' Hg']]].
    apply (Hone c c' a b); assumption.
Qed.

Lemma df_prophet_long (group : string) :
  (2 <= List.length (Dashboard.df_prophet display group))%nat
  <-> two_months df group.
Proof.
  split.
  - intros Hlen. pose proof (df_prophet_sorted group) as Hs.
    pose proof (df_prophet_In group) as Hmem.
    rewrite <- (length_map fst) in Hlen.
    destruct (map fst (Dashboard.df_prophet display group)) as [|a [|b l]];
      simpl in Hlen; try lia.
    inversion Hs as [|? ? _ Ha]; subst. inversion Ha as [|? ? Hab _]; subst.
    destruct (proj1 (Hmem a) (or_introl eq_refl)) as [c [Hc [Hm Hg]]].
    destruct (proj1 (Hmem b) (or_intror (or_introl eq_refl)))
      as [c' [Hc' [Hm' Hg']]].
    exists c, c', a, b. repeat split; try assumption. lia.
  - intros [c [c' [m [m' [Hc [Hc' [Hg [Hg' [Hm [Hm' Hne]]]]]]]]]].
    destruct (Nat.lt_ge_cases (List.length (Dashboard.df_prophet display group)) 2)
      as [Hlt|Hge]; [|exact Hge].
    apply df_prophet_short in Hlt. exfalso. apply Hne.
    apply (Hlt c c' m m'); assumption.
Qed.

Lemma pop_group_options_In (group : string) :
  In group (Dashboard.pop_group_options display)
  <-> exists c m, In c df /\ c_month c = Some m /\ c_pop_group c = Some group.
Proof.
  unfold Dashboard.pop_group_options.
  assert (Hiff : In group (map Dashboard.d_pop_group display)
                 <-> exists c m, In c df /\ c_month c = Some m
                                 /\ c_pop_group c = Some group).
  { unfold Dashboard.df_display. rewrite map_map. simpl. rewrite in_map_iff.
    split.
    - intros [[m g] [Hg Hk]]. simpl in Hg. subst g.
      apply display_keys_In in Hk. destruct Hk as [c Hc]. exists c, m. exact Hc.
    - intros [c [m Hc]]. exists (m, group). split; [reflexivity|].
      apply display_keys_In. exists c. exact Hc. }
  rewrite <- Hiff.
  rewrite <- (nodup_In string_dec (map Dashboard.d_pop_group display) group).
  split; apply Permutation_in;
    [apply insertion_sort_perm | symmetry; apply insertion_sort_perm].
Qed.

Lemma comparative_forecast_groups (forecast_months : nat) :
  map fst (Dashboard.comparative_forecast display forecast_months)
  = filter (fun g => negb (List.length (Dashboard.df_prophet display g) <? 2)%nat)
           (Dashboard.pop_group_options display).
Proof.
  unfold Dashboard.comparative_forecast.
  induction (Dashboard.pop_group_options display) as [|g l IH]; [reflexivity|].
  simpl. unfold Dashboard.individual_forecast at 1.
  destruct (List.length (Dashboard.df_prophet display g) <? 2)%nat; simpl;
    rewrite IH; reflexivity.
Qed.

End ForecastSeries.

Lemma single_month_not_two (df : list converted_row) (group : string) :
  single_month df group -> ~ two_months df group.
Proof.
  intros Hone [c [c' [m [m' [Hc [Hc' [Hg [Hg' [Hm [Hm' Hne]]]]]]]]]].
  apply Hne, (Hone c c' m m'); assumption.
Qed.

Lemma selected_example_rural : single_month selected_example "rural".
Proof.
  intros c c' m m' Hc Hc' Hg Hg' Hm Hm'.
  simpl in Hc, Hc'.
  repeat (destruct Hc as [<-|Hc]; [|]); try contradiction;
    repeat (destruct Hc' as [<-|Hc']; [|]); try contradiction;
    simpl in *; congruence.
Qed.



(** X12.  The comparative forecast fits the categories that have rows in
    two different months, and only those, each once, in ascending order of
    their names, and each on the series of its individual forecast. *)
Theorem comparative_forecast_fits (df : list converted_row)
    (forecast_months : nat) :
  let fitted := Dashboard.comparative_forecast (Dashboard.df_display df)
                                               forecast_months in
  StronglySorted (fun a b => string_leb a b = true /\ a <> b) (map fst fitted)
  /\ (forall group, In group (map fst fitted) <-> two_months df group)
  /\ (forall group step,
        In (group, step) fitted ->
        step = Dashboard.Fit
                 (Dashboard.df_prophet (Dashboard.df_display df) group)
                 forecast_months).
Proof.
  intros fitted. split; [|split].
  - unfold fitted. rewrite comparative_forecast_groups.
    apply StronglySorted_filter, StronglySorted_distinct.
    + unfold Dashboard.pop_group_options.
      apply insertion_sort_sorted with (le := string_leb).
      * exact string_leb_trans.
      * auto.
      * intros a b H. destruct (string_leb_total a b); congruence.
    + unfold Dashboard.pop_group_options.
      eapply Permutation_NoDup; [symmetry; apply insertion_sort_perm|].
      apply NoDup_nodup.
  - intros group. unfold fitted. rewrite comparative_forecast_groups.
    rewrite filter_In, pop_group_options_In, <- df_prophet_long.
    split.
    + intros [_ Hlen].
      destruct (Nat.ltb_spec
                  (List.length (Dashboard.df_prophet (Dashboard.df_display df)
                                                     group)) 2);
        [discriminate | assumption].
    + intros Hlen. split.
      * apply df_prophet_long in Hlen.
        destruct Hlen as [c [_ [m [_ [Hc [_ [Hg [_ [Hm _]]]]]]]]].
        exists c, m. auto.
      * destruct (Nat.ltb_spec
                    (List.length (Dashboard.df_prophet (Dashboard.df_display df)
                                                       group)) 2);
          [lia | reflexivity].
  - intros group step Hin. unfold fitted, Dashboard.comparative_forecast in Hin.
    apply in_flat_map in Hin. destruct Hin as [g [_ Hin]].
    unfold Dashboard.individual_forecast in Hin.
    destruct (List.length (Dashboard.df_prophet (Dashboard.df_display df) g) <? 2)%nat;
      [contradiction|].
    destruct Hin as [Heq|[]]. inversion Heq; subst. reflexivity.
Qed.

Lemma comparative_forecast_fits_witness :
  Dashboard.comparative_forecast (Dashboard.df_display selected_example) 12
  = [("urban",
      Dashboard.Fit [(Timestamp.of_date 2024 1 1, F64.of_Z 6);
                     (Timestamp.of_date 2024 2 1, F64.of_Z 6)] 12)]
  /\ ~ In "rural"
       (map fst (Dashboard.comparative_forecast
                   (Dashboard.df_display selected_example) 12)).
Proof.
  split; [vm_compute; reflexivity|].
  destruct (comparative_forecast_fits selected_example 12) as [_ [Hin _]].
  intros H.
  exact (single_month_not_two _ _ selected_example_rural
           (proj1 (Hin "rural") H)).
Defined.
